(** * The groups controller of NodeBB (src/controllers/groups.js)

    A shallow embedding of the three request handlers [list], [details] and
    [members] and of their helpers, followed by the properties of the
    group-directory specification that they are checked against.

    Modelling conventions.
    - A JavaScript string is the sequence of the bytes of its UTF-8
      encoding; equality and concatenation are those of the bytes.
    - JavaScript numbers that hold counts, offsets and page numbers are
      modelled as [Z]; [NaN] (the only non-integer [parseInt] yields) is
      [None]. A number is its integer exactly as long as it is a safe
      integer (at most 2^53 in absolute value); the rounding of doubles
      beyond that is not modelled, and the properties whose truth depends
      on exact page numbers or offsets state a bound of 2^53 on them.
    - A query-string value is a [qval]; a key that is absent from
      [req.query] (JavaScript [undefined]) is a failed lookup in the map.
    - A conversion that throws a TypeError is [Throws]; inside a handler
      it rejects the handler's promise with [type_error].
    - Every [await]ed call of another module is a collaborator call: it is
      recorded in a log and either yields a value or rejects with an error.
    - [req], [res] and the effects on the response ([res.redirect],
      [res.render], [next()]) live in an explicit state that is threaded
      through the handlers. *)

From Stdlib Require Import ZArith List String Ascii Bool Lia.
From stdpp Require Import base gmap strings.
Import ListNotations.

Local Open Scope string_scope.
Local Open Scope list_scope.
Local Open Scope Z_scope.

(** ** JavaScript values and built-ins used by the controller *)

(** What the query-string parser can put under a key of [req.query]: a
    string, an array, or an object. The parser builds objects whose keys
    are arbitrary strings, [toString] included; [own_toString] tells
    whether the object has a key of that name (its value is then a query
    value, never a function). *)
#[warnings="-register-all"]
Inductive qval : Type :=
| QStr (s : string)
| QArr (l : list qval)
| QObj (own_toString : bool).

(** The outcome of a conversion that can throw a TypeError. *)
Inductive js (A : Type) : Type :=
| Returns (a : A)
| Throws.
Arguments Returns {A} a.
Arguments Throws {A}.

(** [if (v)], [v || d], [!v] on a possibly absent query value. *)
Definition truthy (v : option qval) : bool :=
  match v with
  | None => false
  | Some (QStr EmptyString) => false
  | Some _ => true
  end.

(** [String(v)] on a query value: a string is itself, an array is its
    elements joined by commas, an object is "[object Object]" unless it
    has its own [toString], which is not callable, so that the conversion
    throws. *)
Fixpoint String_of_value (v : qval) : js string :=
  match v with
  | QStr s => Returns s
  | QArr l =>
      (fix join (l : list qval) : js string :=
         match l with
         | [] => Returns ""
         | [x] => String_of_value x
         | x :: rest =>
             match String_of_value x, join rest with
             | Returns a, Returns b => Returns (a +:+ "," +:+ b)
             | _, _ => Throws
             end
         end) l
  | QObj own_toString =>
      if own_toString then Throws else Returns "[object Object]"
  end.

(** [String(v)] on a possibly absent query value. *)
Definition String_of (v : option qval) : js string :=
  match v with
  | None => Returns "undefined"
  | Some x => String_of_value x
  end.

(** [v === 'lit']. *)
Definition strict_eq (v : option qval) (lit : string) : bool :=
  match v with
  | Some (QStr s) => String.eqb s lit
  | _ => false
  end.

(** [Array.isArray(v) ? v : []]. *)
Definition array_or_empty (v : option qval) : list qval :=
  match v with
  | Some (QArr l) => l
  | _ => []
  end.

(** [v || d] where the result is used as a value. *)
Definition or_else (v : option qval) (d : qval) : qval :=
  match v with
  | Some x => if truthy v then x else d
  | None => d
  end.

Definition byte_of (c : ascii) : Z := Z.of_nat (nat_of_ascii c).

(** The white space and line terminators of one byte: TAB, LF, VT, FF, CR
    and the space. *)
Definition is_white_space (c : ascii) : bool :=
  let n := byte_of c in
  ((9 <=? n) && (n <=? 13)) || (n =? 32).

(** The white space and line terminators of two and three bytes: U+00A0;
    U+1680; U+2000 to U+200A, U+2028, U+2029, U+202F; U+205F; U+3000;
    U+FEFF. *)
Definition is_white_space2 (c1 c2 : ascii) : bool :=
  (byte_of c1 =? 194) && (byte_of c2 =? 160).

Definition is_white_space3 (c1 c2 c3 : ascii) : bool :=
  let '(a, b, c) := (byte_of c1, byte_of c2, byte_of c3) in
  ((a =? 225) && (b =? 154) && (c =? 128)) ||
  ((a =? 226) && (b =? 128) &&
   (((128 <=? c) && (c <=? 138)) || (c =? 168) || (c =? 169) || (c =? 175))) ||
  ((a =? 226) && (b =? 129) && (c =? 159)) ||
  ((a =? 227) && (b =? 128) && (c =? 128)) ||
  ((a =? 239) && (b =? 187) && (c =? 191)).

(** The string without its leading white space, as [parseInt] skips it. *)
Fixpoint trim_start (s : string) : string :=
  match s with
  | String c1 r1 =>
      if is_white_space c1 then trim_start r1
      else
        match r1 with
        | String c2 r2 =>
            if is_white_space2 c1 c2 then trim_start r2
            else
              match r2 with
              | String c3 r3 =>
                  if is_white_space3 c1 c2 c3 then trim_start r3 else s
              | EmptyString => s
              end
        | EmptyString => s
        end
  | EmptyString => s
  end.

Definition digit_of (c : ascii) : option Z :=
  let n := byte_of c in
  if (48 <=? n) && (n <=? 57) then Some (n - 48) else None.

(** The longest prefix of decimal digits, read as a number; [acc] is [None]
    until a first digit has been seen. *)
Fixpoint leading_digits (s : string) (acc : option Z) : option Z :=
  match s with
  | String c r =>
      match digit_of c with
      | Some d => leading_digits r (Some (10 * (default 0 acc) + d))
      | None => acc
      end
  | EmptyString => acc
  end.

(** The number [parseInt] reads in radix 10 from a string: an optional
    sign and decimal digits after the leading white space; [None] is
    [NaN]. *)
Definition parse_decimal (s : string) : option Z :=
  match trim_start s with
  | String "-" r => Z.opp <$> leading_digits r None
  | String "+" r => leading_digits r None
  | t => leading_digits t None
  end.

(** [parseInt(v, 10)]: the argument is converted to a string first. The
    result is the integer the digits denote, which is the number of the
    source when it is a safe integer. *)
Definition parseInt (v : option qval) : js (option Z) :=
  match String_of v with
  | Returns s => Returns (parse_decimal s)
  | Throws => Throws
  end.

(** [n || d] on numbers: [NaN] and [0] are falsy. *)
Definition num_or (n : option Z) (d : Z) : Z :=
  match n with
  | Some 0 | None => d
  | Some k => k
  end.

(** [Math.ceil(n / d)] for integers [n] and a positive integer [d]. *)
Definition Math_ceil_div (n d : Z) : Z := - ((- n) / d).

(** [xs.slice(start, stop)]. *)
Definition Array_slice {A : Type} (xs : list A) (start stop : Z) : list A :=
  let len := Z.of_nat (length xs) in
  let k := if start <? 0 then Z.max (len + start) 0 else Z.min start len in
  let final := if stop <? 0 then Z.max (len + stop) 0 else Z.min stop len in
  firstn (Z.to_nat (final - k)) (skipn (Z.to_nat k) xs).

(** [s.replace(/^\/api/, '')]. *)
Definition strip_api (s : string) : string :=
  if String.prefix "/api" s then String.substring 4 (String.length s - 4) s else s.

(** ** Modules the controller requires but that are not part of it *)

Record Crumb : Type := { crumb_text : string; crumb_url : option string }.

(** The pure helpers and configuration values of other modules, the types
    of the data that only passes through the controller, and the value a
    promise is rejected with when a TypeError is thrown. *)
Class Externals : Type := {
  Err : Type;
  type_error : Err;
  Group : Type;
  User : Type;
  Post : Type;
  GroupData : Type;
  displayName : GroupData -> string;
  memberCount : GroupData -> Z;
  Pagination : Type;
  pagination_create : Z -> Z -> gmap string qval -> Pagination;
  Breadcrumbs : Type;
  buildBreadcrumbs : list Crumb -> Breadcrumbs;
  validator_escape : string -> string;
  toLowerCase : string -> string;
  nconf_url : string;
  nconf_relative_path : string;
  allowPrivateGroups : bool
}.

Inductive result (E A : Type) : Type :=
| Ok (a : A)
| Error (e : E).
Arguments Ok {E A} a.
Arguments Error {E A} e.

Section Controller.
Context `{X : Externals}.

Record SearchOptions : Type := {
  so_sort : qval;
  filterHidden : bool;
  showMembers : bool;
  hideEphemeralGroups : bool;
  excludeGroups : list qval
}.

(** The asynchronous calls into [groups], [user] and [privileges], indexed
    by the type of the value the promise resolves to. *)
Inductive op : Type -> Type :=
| GlobalCan (privilege : string) (uid : Z) : op bool
| AdminCan (privilege : string) (uid : Z) : op bool
| IsAdministrator (uid : Z) : op bool
| IsGlobalModerator (uid : Z) : op bool
| IsAdminOrGlobalMod (uid : Z) : op bool
| GetUsersFromSet (set : string) (uid start stop : Z) : op (list User)
| Search (query : qval) (options : SearchOptions) : op (list Group)
| GetGroupsBySort (sort : qval) (start stop : Z) : op (list Group)
| GetGroupCountBySort (sort : qval) : op Z
| Exists (groupName : string) : op bool
| IsHidden (groupName : string) : op bool
| IsMember (uid : Z) (groupName : string) : op bool
| IsInvited (uid : Z) (groupName : string) : op bool
| GroupsGet (groupName : string) (uid : Z) (truncateUserList : bool)
    (userListCount : Z) : op (option GroupData)
| GetLatestMemberPosts (groupName : string) (max uid : Z) : op (list Post)
| GetGroupData (groupName : string) : op GroupData
| GetGroupNameByGroupSlug (slug : string) : op (option string).

(** How the other modules answer, and which of several rejections of one
    [Promise.all] is the first in time. *)
Record Collab : Type := {
  privileges_global_can : string -> Z -> result Err bool;
  privileges_admin_can : string -> Z -> result Err bool;
  user_isAdministrator : Z -> result Err bool;
  user_isGlobalModerator : Z -> result Err bool;
  user_isAdminOrGlobalMod : Z -> result Err bool;
  user_getUsersFromSet : string -> Z -> Z -> Z -> result Err (list User);
  groups_search : qval -> SearchOptions -> result Err (list Group);
  groups_getGroupsBySort : qval -> Z -> Z -> result Err (list Group);
  groups_getGroupCountBySort : qval -> result Err Z;
  groups_exists : string -> result Err bool;
  groups_isHidden : string -> result Err bool;
  groups_isMember : Z -> string -> result Err bool;
  groups_isInvited : Z -> string -> result Err bool;
  groups_get : string -> Z -> bool -> Z -> result Err (option GroupData);
  groups_getLatestMemberPosts : string -> Z -> Z -> result Err (list Post);
  groups_getGroupData : string -> result Err GroupData;
  groups_getGroupNameByGroupSlug : string -> result Err (option string);
  first_rejection : Err -> list Err -> Err
}.

Definition perform (env : Collab) {T : Type} (o : op T) : result Err T :=
  match o in op T return result Err T with
  | GlobalCan p u => privileges_global_can env p u
  | AdminCan p u => privileges_admin_can env p u
  | IsAdministrator u => user_isAdministrator env u
  | IsGlobalModerator u => user_isGlobalModerator env u
  | IsAdminOrGlobalMod u => user_isAdminOrGlobalMod env u
  | GetUsersFromSet s u a b => user_getUsersFromSet env s u a b
  | Search q o => groups_search env q o
  | GetGroupsBySort s a b => groups_getGroupsBySort env s a b
  | GetGroupCountBySort s => groups_getGroupCountBySort env s
  | Exists g => groups_exists env g
  | IsHidden g => groups_isHidden env g
  | IsMember u g => groups_isMember env u g
  | IsInvited u g => groups_isInvited env u g
  | GroupsGet g u t n => groups_get env g u t n
  | GetLatestMemberPosts g n u => groups_getLatestMemberPosts env g n u
  | GetGroupData g => groups_getGroupData env g
  | GetGroupNameByGroupSlug s => groups_getGroupNameByGroupSlug env s
  end.

(** A collaborator call that was made. *)
Definition event : Type := { T : Type & op T }.
Definition Ev {T : Type} (o : op T) : event := existT T o.

(** The rejection of a call that was made, if it rejects. *)
Definition failure (env : Collab) (ev : event) : option Err :=
  match perform env (projT2 ev) with
  | Error e => Some e
  | Ok _ => None
  end.

(** ** The request, the response and the state of one handler run *)

Record Request : Type := {
  uid : Z;
  url : string;
  query : gmap string qval;
  params_slug : string
}.

Record LinkTag : Type := { rel : string; href : string }.

Record Response : Type := {
  locals_isAPI : bool;
  locals_linkTags : option (list LinkTag)
}.

Inductive View : Type :=
| ListView (groups : list Group) (allowGroupCreation : bool) (sort : string)
    (pagination : Pagination) (title : string) (breadcrumbs : Breadcrumbs)
| DetailsView (title : string) (group : GroupData) (posts : list Post)
    (isAdmin isGlobalMod : option bool) (allowPrivate : bool)
    (breadcrumbs : Breadcrumbs)
| MembersView (users : list User) (pagination : Pagination)
    (breadcrumbs : Breadcrumbs).

(** What a handler did to answer the request. *)
Inductive Effect : Type :=
| Redirect (location : string)
| Render (template : string) (view : View)
| Next.

Record St : Type := {
  req : Request;
  res : Response;
  out : list Effect;
  log : list event
}.

Definition M (A : Type) : Type := St -> St * result Err A.

Definition ret {A : Type} (a : A) : M A := fun s => (s, Ok a).

Definition bind {A B : Type} (m : M A) (k : A -> M B) : M B :=
  fun s =>
    match m s with
    | (s1, Ok a) => k a s1
    | (s1, Error e) => (s1, Error e)
    end.

Definition get_req : M Request := fun s => (s, Ok (req s)).
Definition get_res : M Response := fun s => (s, Ok (res s)).

Definition set_slug (slug : string) : M unit := fun s =>
  ({| req := {| uid := uid (req s); url := url (req s); query := query (req s);
                params_slug := slug |};
      res := res s; out := out s; log := log s |}, Ok tt).

Definition set_linkTags (tags : list LinkTag) : M unit := fun s =>
  ({| req := req s;
      res := {| locals_isAPI := locals_isAPI (res s);
                locals_linkTags := Some tags |};
      out := out s; log := log s |}, Ok tt).

Definition emit (e : Effect) : M unit := fun s =>
  ({| req := req s; res := res s; out := out s ++ [e]; log := log s |}, Ok tt).

(** A conversion inside an [async] function: a TypeError it throws
    rejects the promise of the function. *)
Definition lift {A : Type} (x : js A) : M A := fun s =>
  (s, match x with
      | Returns a => Ok a
      | Throws => Error type_error
      end).

Section WithCollaborators.
Variable env : Collab.

(** [await collaborator(args)]. *)
Definition call {T : Type} (o : op T) : M T := fun s =>
  ({| req := req s; res := res s; out := out s; log := log s ++ [Ev o] |},
   perform env o).

(** The rejections of the members of one [Promise.all], in array order. *)
Definition pending {A : Type} (r : result Err A) : result (Err * list Err) A :=
  match r with
  | Ok a => Ok a
  | Error e => Error (e, [])
  end.

Definition par {A B : Type} (ra : result (Err * list Err) A)
    (rb : result (Err * list Err) B) : result (Err * list Err) (A * B) :=
  match ra, rb with
  | Ok x, Ok y => Ok (x, y)
  | Error p, Ok _ => Error p
  | Ok _, Error p => Error p
  | Error (e, es), Error (e', es') => Error (e, es ++ e' :: es')
  end.

Definition settle {A : Type} (r : result (Err * list Err) A) : result Err A :=
  match r with
  | Ok a => Ok a
  | Error (e, []) => Error e
  | Error (e, es) => Error (first_rejection env e es)
  end.

(** [await Promise.all([a, b])]: both are started, whatever the other one
    does; the result rejects with the rejection that comes first. *)
Definition all2 {A B : Type} (a : M A) (b : M B) : M (A * B) := fun s =>
  let (s1, ra) := a s in
  let (s2, rb) := b s1 in
  (s2, settle (par (pending ra) (pending rb))).

(** [await Promise.all([a, b, c, d])]. *)
Definition all4 {A B C D : Type} (a : M A) (b : M B) (c : M C) (d : M D)
    : M (A * (B * (C * D))) := fun s =>
  let (s1, ra) := a s in
  let (s2, rb) := b s1 in
  let (s3, rc) := c s2 in
  let (s4, rd) := d s3 in
  (s4, settle (par (pending ra) (par (pending rb)
                 (par (pending rc) (pending rd))))).

Notation "'await' x ':=' m 'in' k" := (bind m (fun x => k))
  (at level 10, x name, m at level 200, k at level 200).
Notation "'await' ' p ':=' m 'in' k" :=
  (bind m (fun x => match x with p => k end))
  (at level 10, p pattern, m at level 200, k at level 200).
Notation "'exec' m 'in' k" := (bind m (fun _ => k))
  (at level 10, m at level 200, k at level 200).

(** ** The list handler *)

(** [req.query.query ? 100 : 15]. *)
Definition resultsPerPage (r : Request) : Z :=
  if truthy (query r !! "query") then 100 else 15.

(** [parseInt(req.query.page, 10) || 1]. *)
Definition requested_page (r : Request) : js Z :=
  match parseInt (query r !! "page") with
  | Returns n => Returns (num_or n 1)
  | Throws => Throws
  end.

(** [Math.max(0, page - 1) * resultsPerPage], the [start] of [getGroups],
    computed exactly (as the source does within the safe integers). *)
Definition getGroups_start (r : Request) (page : Z) : Z :=
  Z.max 0 (page - 1) * resultsPerPage r.

(** The filter object handed to [groups.search]. *)
Definition search_filters (r : Request) (sort : qval) (is_filterHidden : bool)
    : SearchOptions :=
  {| so_sort := sort;
     filterHidden := is_filterHidden;
     showMembers := strict_eq (query r !! "showMembers") "true";
     hideEphemeralGroups := strict_eq (query r !! "hideEphemeralGroups") "true";
     excludeGroups := array_or_empty (query r !! "excludeGroups") |}.

Definition getGroups (sort : qval) (page : Z) : M (list Group * Z) :=
  await r := get_req in
  let start := getGroups_start r page in
  let stop := start + resultsPerPage r - 1 in
  let sorted_listing : M (list Group * Z) :=
    await ' (groupData, groupCount) :=
        all2 (call (GetGroupsBySort sort start stop))
             (call (GetGroupCountBySort sort)) in
    let pageCount := Math_ceil_div groupCount (resultsPerPage r) in
    ret (groupData, pageCount) in
  match query r !! "query" with
  | Some q =>
      if truthy (Some q) then
        await is_filterHidden :=
          (if strict_eq (query r !! "filterHidden") "true" then ret true
           else (await isAdministrator := call (IsAdministrator (uid r)) in
                 ret (negb isAdministrator))) in
        await groupData :=
          call (Search q (search_filters r sort is_filterHidden)) in
        let pageCount :=
          Math_ceil_div (Z.of_nat (length groupData)) (resultsPerPage r) in
        ret (Array_slice groupData start (stop + 1), pageCount)
      else sorted_listing
  | None => sorted_listing
  end.

Definition groupsController_list : M unit :=
  await r := get_req in
  let sort := or_else (query r !! "sort") (QStr "alpha") in
  await page := lift (requested_page r) in
  await ' (allowGroupCreation, (groupData, pageCount)) :=
      all2 (call (GlobalCan "group:create" (uid r))) (getGroups sort page) in
  exec set_linkTags [ {| rel := "canonical";
                         href := nconf_url +:+ strip_api (url r) |} ] in
  await sort_text := lift (String_of (Some sort)) in
  emit (Render "groups/list"
    (ListView groupData allowGroupCreation
       (validator_escape sort_text)
       (pagination_create page pageCount (query r))
       "[[pages:groups]]"
       (buildBreadcrumbs
          [ {| crumb_text := "[[pages:groups]]"; crumb_url := None |} ]))).

(** ** The details handler *)

(** Returns [false] when a redirect was sent, [true] to go on. *)
Definition validateSlugAndRedirect : M bool :=
  await r := get_req in
  await rs := get_res in
  let lowercaseSlug := toLowerCase (params_slug r) in
  if negb (String.eqb (params_slug r) lowercaseSlug) then
    if locals_isAPI rs then
      exec set_slug lowercaseSlug in ret true
    else
      exec emit (Redirect
                   (nconf_relative_path +:+ "/groups/" +:+ lowercaseSlug)) in
      ret false
  else ret true.

(** [{ hasAccess, isAdmin, isGlobalMod }]; the last two are [undefined] in
    the object that denies access. *)
Record Access : Type := {
  hasAccess : bool;
  isAdmin : option bool;
  isGlobalMod : option bool
}.

Definition validateGroupAccess (groupName : string) : M Access :=
  await r := get_req in
  await ' (exists_, (is_hidden, (is_admin, is_globalMod))) :=
      all4 (call (Exists groupName))
           (call (IsHidden groupName))
           (call (AdminCan "admin:groups" (uid r)))
           (call (IsGlobalModerator (uid r))) in
  let denied : Access :=
    {| hasAccess := false; isAdmin := None; isGlobalMod := None |} in
  let granted : Access :=
    {| hasAccess := true; isAdmin := Some is_admin;
       isGlobalMod := Some is_globalMod |} in
  if negb exists_ then ret denied
  else if is_hidden && negb is_admin && negb is_globalMod then
    await ' (is_member, is_invited) :=
        all2 (call (IsMember (uid r) groupName))
             (call (IsInvited (uid r) groupName)) in
    if negb is_member && negb is_invited then ret denied else ret granted
  else ret granted.

Definition fetchGroupDetailsData (groupName : string)
    : M (option GroupData * list Post) :=
  await r := get_req in
  all2 (call (GroupsGet groupName (uid r) true 20))
       (call (GetLatestMemberPosts groupName 10 (uid r))).

Definition renderGroupDetails (groupData : GroupData) (posts : list Post)
    (is_admin is_globalMod : option bool) (lowercaseSlug : string) : M unit :=
  exec set_linkTags
         [ {| rel := "canonical";
              href := nconf_url +:+ "/groups/" +:+ lowercaseSlug |} ] in
  emit (Render "groups/details"
    (DetailsView ("[[pages:group, " +:+ displayName groupData +:+ "]]")
       groupData posts is_admin is_globalMod allowPrivateGroups
       (buildBreadcrumbs
          [ {| crumb_text := "[[pages:groups]]"; crumb_url := Some "/groups" |};
            {| crumb_text := displayName groupData; crumb_url := None |} ]))).

(** [!groupName] on what the slug lookup resolves to. *)
Definition no_name (groupName : option string) : bool :=
  match groupName with
  | Some name => String.eqb name ""
  | None => true
  end.

Definition groupsController_details : M unit :=
  await validation := validateSlugAndRedirect in
  if negb validation then ret tt
  else
    await r := get_req in
    await name := call (GetGroupNameByGroupSlug (params_slug r)) in
    match name with
    | Some groupName =>
        if no_name name then emit Next
        else
          await access := validateGroupAccess groupName in
          if negb (hasAccess access) then emit Next
          else
            await ' (data, posts) := fetchGroupDetailsData groupName in
            match data with
            | Some groupData =>
                let lowercaseSlug := toLowerCase (params_slug r) in
                renderGroupDetails groupData posts (isAdmin access)
                  (isGlobalMod access) lowercaseSlug
            | None => emit Next
            end
    | None => emit Next
    end.

(** ** The members handler *)

(** [Math.max(0, (page - 1) * usersPerPage)], the [start] of [members],
    computed exactly (as the source does within the safe integers). *)
Definition members_start (page usersPerPage : Z) : Z :=
  Z.max 0 ((page - 1) * usersPerPage).

Definition groupsController_members : M unit :=
  await r := get_req in
  await page := lift (requested_page r) in
  let usersPerPage := 50 in
  let start := members_start page usersPerPage in
  let stop := start + usersPerPage - 1 in
  await name := call (GetGroupNameByGroupSlug (params_slug r)) in
  match name with
  | Some groupName =>
      if no_name name then emit Next
      else
        await ' (groupData, (isAdminOrGlobalMod, (is_member, is_hidden))) :=
            all4 (call (GetGroupData groupName))
                 (call (IsAdminOrGlobalMod (uid r)))
                 (call (IsMember (uid r) groupName))
                 (call (IsHidden groupName)) in
        if is_hidden && negb is_member && negb isAdminOrGlobalMod then
          emit Next
        else
          await users := call (GetUsersFromSet
                            ("group:" +:+ groupName +:+ ":members")
                            (uid r) start stop) in
          let breadcrumbs := buildBreadcrumbs
            [ {| crumb_text := "[[pages:groups]]"; crumb_url := Some "/groups" |};
              {| crumb_text := validator_escape groupName;
                 crumb_url := Some ("/groups/" +:+ params_slug r) |};
              {| crumb_text := "[[groups:details.members]]";
                 crumb_url := None |} ] in
          let pageCount :=
            Z.max 1 (Math_ceil_div (memberCount groupData) usersPerPage) in
          emit (Render "groups/members"
            (MembersView users (pagination_create page pageCount (query r))
               breadcrumbs))
  | None => emit Next
  end.

End WithCollaborators.
End Controller.

(** ** A concrete installation, for running the model *)

Definition ascii_lower (c : ascii) : ascii :=
  let n := nat_of_ascii c in
  if ((65 <=? n) && (n <=? 90))%nat then ascii_of_nat (n + 32) else c.

Fixpoint lower_string (s : string) : string :=
  match s with
  | String c r => String (ascii_lower c) (lower_string r)
  | EmptyString => EmptyString
  end.

Definition demo : Externals := {|
  Err := string;
  type_error := "TypeError";
  Group := string;
  User := string;
  Post := string;
  GroupData := string * Z;
  displayName := fst;
  memberCount := snd;
  Pagination := Z * Z;
  pagination_create := fun page pageCount _ => (page, pageCount);
  Breadcrumbs := list Crumb;
  buildBreadcrumbs := fun crumbs => crumbs;
  validator_escape := fun s => s;
  toLowerCase := lower_string;
  nconf_url := "https://forum.example";
  nconf_relative_path := "/forum";
  allowPrivateGroups := true
|}.

Section Demo.
#[local] Existing Instance demo.

(** One hidden group, "staff" (3 members), and one open group, "chess"
    (no members); user 1 administrates, user 2 moderates globally, user 3
    is a member of "staff", user 4 is invited to it, user 5 is nobody. *)
Definition demo_env : Collab := {|
  privileges_global_can := fun _ u => Ok (u =? 1);
  privileges_admin_can := fun _ u => Ok (u =? 1);
  user_isAdministrator := fun u => Ok (u =? 1);
  user_isGlobalModerator := fun u => Ok (u =? 2);
  user_isAdminOrGlobalMod := fun u => Ok ((u =? 1) || (u =? 2));
  user_getUsersFromSet := fun set _ start stop =>
    Ok (Array_slice (if String.eqb set "group:staff:members"
                     then ["ann"; "bob"; "cy"] else []) start (stop + 1));
  groups_search := fun _ o =>
    Ok (if filterHidden o then ["chess"] else ["chess"; "staff"]);
  groups_getGroupsBySort := fun _ start stop =>
    Ok (Array_slice ["chess"] start (stop + 1));
  groups_getGroupCountBySort := fun _ => Ok 32;
  groups_exists := fun g => Ok (String.eqb g "staff" || String.eqb g "chess");
  groups_isHidden := fun g => Ok (String.eqb g "staff");
  groups_isMember := fun u g => Ok ((u =? 3) && String.eqb g "staff");
  groups_isInvited := fun u g => Ok ((u =? 4) && String.eqb g "staff");
  groups_get := fun g _ _ _ =>
    Ok (if String.eqb g "staff" then Some ("Staff", 3)
        else if String.eqb g "chess" then Some ("Chess", 0) else None);
  groups_getLatestMemberPosts := fun _ _ _ => Ok [];
  groups_getGroupData := fun g =>
    Ok (if String.eqb g "staff" then ("Staff", 3) else ("Chess", 0));
  groups_getGroupNameByGroupSlug := fun slug =>
    Ok (if String.eqb slug "staff" then Some "staff"
        else if String.eqb slug "chess" then Some "chess" else None);
  first_rejection := fun e _ => e
|}.

(** The same installation with a store whose membership lookups fail. *)
Definition broken_env : Collab := {|
  privileges_global_can := privileges_global_can demo_env;
  privileges_admin_can := privileges_admin_can demo_env;
  user_isAdministrator := user_isAdministrator demo_env;
  user_isGlobalModerator := user_isGlobalModerator demo_env;
  user_isAdminOrGlobalMod := user_isAdminOrGlobalMod demo_env;
  user_getUsersFromSet := user_getUsersFromSet demo_env;
  groups_search := groups_search demo_env;
  groups_getGroupsBySort := groups_getGroupsBySort demo_env;
  groups_getGroupCountBySort := groups_getGroupCountBySort demo_env;
  groups_exists := groups_exists demo_env;
  groups_isHidden := groups_isHidden demo_env;
  groups_isMember := fun _ _ => Error "ECONNREFUSED";
  groups_isInvited := groups_isInvited demo_env;
  groups_get := groups_get demo_env;
  groups_getLatestMemberPosts := groups_getLatestMemberPosts demo_env;
  groups_getGroupData := groups_getGroupData demo_env;
  groups_getGroupNameByGroupSlug := groups_getGroupNameByGroupSlug demo_env;
  first_rejection := first_rejection demo_env
|}.

Definition demo_request (u : Z) (q : gmap string qval) (slug : string)
    : Request :=
  {| uid := u; url := "/api/groups"; query := q; params_slug := slug |}.

Definition demo_state (api : bool) (r : Request) : St :=
  {| req := r;
     res := {| locals_isAPI := api; locals_linkTags := None |};
     out := []; log := [] |}.

End Demo.

(** * Vocabulary of the properties *)

Section Vocabulary.
Context `{X : Externals}.
Variable env : Collab.

(** The options of a call of the search collaborator. *)
Definition search_options (ev : event) : option SearchOptions :=
  match projT2 ev with
  | Search _ o => Some o
  | _ => None
  end.

(** Whether a call consults the invitation relation. *)
Definition consults_invitation (ev : event) : bool :=
  match projT2 ev with
  | IsInvited _ _ => true
  | _ => false
  end.

(** The start offset of a range request to a store. *)
Definition range_start (ev : event) : option Z :=
  match projT2 ev with
  | GetGroupsBySort _ start _ => Some start
  | GetUsersFromSet _ _ start _ => Some start
  | _ => None
  end.

(** Every run of [m] appends some calls [new] to the log, and [spec]
    relates them to the outcome. *)
Definition extends {A : Type} (m : M A)
    (spec : list event -> result Err A -> Prop) : Prop :=
  forall s, exists new,
    log (fst (m s)) = log s ++ new /\ spec new (snd (m s)).

(** Runs that only make calls of a given kind. *)
Definition calls_only (P : event -> Prop) {A : Type} (m : M A) : Prop :=
  extends m (fun new _ => Forall P new).

(** Whichever rejection of a [Promise.all] comes first, it is one of the
    rejections of its members. *)
Definition fair : Prop :=
  forall e es, In (first_rejection env e es) (e :: es).

Definition answered (ev : event) : Prop := failure env ev = None.
Definition rejected_with (e : Err) (ev : event) : Prop :=
  failure env ev = Some e.

(** A run succeeds only if every call it made was answered, and fails only
    with the rejection of a call it made. *)
Definition accounted {A : Type} (new : list event) (r : result Err A) : Prop :=
  match r with
  | Ok _ => Forall answered new
  | Error e => List.Exists (rejected_with e) new
  end.

Definition faithful {A : Type} (m : M A) : Prop := extends m accounted.

(** The rejections among the members of a [Promise.all]. *)
Definition blame {A : Type} (r : result (Err * list Err) A) : list Err :=
  match r with
  | Ok _ => []
  | Error (e, es) => e :: es
  end.

Definition covered {A : Type} (new : list event)
    (r : result (Err * list Err) A) : Prop :=
  (forall a, r = Ok a -> Forall answered new) /\
  (forall e, In e (blame r) -> List.Exists (rejected_with e) new).

(** A run that leaves the response alone. *)
Definition quiet {A : Type} (m : M A) : Prop :=
  forall s, out (fst (m s)) = out s /\ res (fst (m s)) = res s.

(** A run that accounts for its failures: it succeeds only if every call
    it made was answered; when it fails it has sent nothing, and either
    it fails with the rejection of a call it made and has left the
    response object alone, or every call it made was answered and it
    fails with the TypeError of a conversion. *)
Definition careful {A : Type} (m : M A) : Prop :=
  forall s, exists new,
    log (fst (m s)) = log s ++ new /\
    match snd (m s) with
    | Ok _ => Forall answered new
    | Error e =>
        out (fst (m s)) = out s /\
        (List.Exists (rejected_with e) new /\ res (fst (m s)) = res s \/
         e = type_error /\ Forall answered new)
    end.

(** A run propagates the failures of its collaborators: as soon as one of
    the calls it made rejects, the run fails, with the rejection of a call
    it made; and when it fails, nothing has been sent, and either it fails
    with the rejection of a call it made, the response object being as it
    was, or no call it made rejected and it fails with the TypeError of a
    conversion. *)
Definition propagates {A : Type} (m : M A) : Prop :=
  forall s, exists new,
    log (fst (m s)) = log s ++ new /\
    (forall ev e, In ev new -> failure env ev = Some e ->
       exists e' ev', snd (m s) = Error e' /\
                      In ev' new /\ failure env ev' = Some e') /\
    (forall e, snd (m s) = Error e ->
       out (fst (m s)) = out s /\
       ((exists ev, In ev new /\ failure env ev = Some e) /\
        res (fst (m s)) = res s \/
        e = type_error /\ forall ev, In ev new -> failure env ev = None)).

(** The items of one page of a directory query, empty when it fails. *)
Definition page_items (sort : qval) (s : St) (page : Z) : list Group :=
  match snd (getGroups env sort page s) with
  | Ok (items, _) => items
  | Error _ => []
  end.

(** Whether a call reads the sorted group store. *)
Definition queries_sorted_store (ev : event) : bool :=
  match projT2 ev with
  | GetGroupsBySort _ _ _ => true
  | GetGroupCountBySort _ => true
  | _ => false
  end.

(** Whether a call asks for the administrator role of [user]. *)
Definition consults_administrator (ev : event) : bool :=
  match projT2 ev with
  | IsAdministrator _ => true
  | _ => false
  end.

(** Whether a call fetches a page of members. *)
Definition fetches_members (ev : event) : bool :=
  match projT2 ev with
  | GetUsersFromSet _ _ _ _ => true
  | _ => false
  end.

(** The group whose detail record or posts a call fetches. *)
Definition fetched_group (ev : event) : option string :=
  match projT2 ev with
  | GroupsGet groupName _ _ _ => Some groupName
  | GetLatestMemberPosts groupName _ _ => Some groupName
  | _ => None
  end.

(** The state in which the slug of the request has been replaced. *)
Definition with_slug (slug : string) (s : St) : St := fst (set_slug slug s).

End Vocabulary.

(** * Properties *)

(** ** Arithmetic and array helpers *)

(** [Math_ceil_div n d] is the least integer [c] with [n <= d * c]. *)
Lemma Math_ceil_div_bounds (n d : Z) :
  0 < d -> d * (Math_ceil_div n d - 1) < n <= d * Math_ceil_div n d.
Proof.
  intros Hd. unfold Math_ceil_div.
  pose proof (Z.div_mod (- n) d ltac:(lia)) as Hdm.
  pose proof (Z.mod_pos_bound (- n) d Hd) as Hm.
  nia.
Qed.

Lemma Math_ceil_div_unique (n d c : Z) :
  0 < d -> d * (c - 1) < n <= d * c -> Math_ceil_div n d = c.
Proof.
  intros Hd Hc. pose proof (Math_ceil_div_bounds n d Hd) as Hb. nia.
Qed.

(** For a start inside [0, +oo) and an end that is not before it, [slice]
    drops [start] elements and keeps the next [stop - start]. *)
Lemma Array_slice_window {A : Type} (xs : list A) (start stop : Z) :
  0 <= start <= stop ->
  Array_slice xs start stop =
  firstn (Z.to_nat (stop - start)) (skipn (Z.to_nat start) xs).
Proof.
  intros H. unfold Array_slice.
  destruct (Z.ltb_spec start 0); [lia|].
  destruct (Z.ltb_spec stop 0); [lia|].
  set (len := Z.of_nat (length xs)).
  destruct (Z.le_gt_cases len start) as [Hle | Hgt].
  - rewrite !(skipn_all2 xs) by (unfold len in *; lia).
    now rewrite !firstn_nil.
  - rewrite (Z.min_l start len) by lia.
    destruct (Z.le_gt_cases stop len) as [Hs | Hs].
    + now rewrite (Z.min_l stop len) by lia.
    + rewrite (Z.min_r stop len) by lia.
      rewrite !firstn_all2; try reflexivity;
        rewrite length_skipn; unfold len in *; lia.
Qed.

(** ** The slug canonicalizer *)

(** C4. Canonicalization of the raw slug of any request: when lower-casing
    leaves the slug unchanged the handler goes on with the state untouched
    (no redirect, the original slug); when lower-casing changes it and the
    request is an API request the handler goes on with the lower-cased
    slug stored in the request and nothing sent; when lower-casing changes
    it and the request is not an API request a redirect to
    relative_path/groups/<lower-cased slug> is sent, the handler is told to
    stop, and the slug of the request is left as it was. *)
Theorem validateSlugAndRedirect_canonical `{X : Externals} (s : St) :
  let slug := params_slug (req s) in
  let lower := toLowerCase slug in
  let s' := fst (validateSlugAndRedirect s) in
  let continue := snd (validateSlugAndRedirect s) in
  (lower = slug -> continue = Ok true /\ s' = s) /\
  (lower <> slug -> locals_isAPI (res s) = true ->
     continue = Ok true /\ params_slug (req s') = lower /\
     out s' = out s /\ log s' = log s /\ res s' = res s) /\
  (lower <> slug -> locals_isAPI (res s) = false ->
     continue = Ok false /\
     out s' = out s ++ [Redirect (nconf_relative_path +:+ "/groups/" +:+ lower)] /\
     req s' = req s /\ log s' = log s /\ res s' = res s).
Proof.
  cbv zeta. unfold validateSlugAndRedirect, bind, get_req, get_res.
  destruct (String.eqb_spec (params_slug (req s)) (toLowerCase (params_slug (req s))))
    as [Heq | Hne]; cbn.
  - split; [intros _; now split|].
    split; intros Hne; congruence.
  - split; [intros Heq; congruence|].
    split; intros _ Hapi; rewrite Hapi; cbn; repeat split; reflexivity.
Qed.

Lemma validateSlugAndRedirect_canonical_witness :
  (let s := demo_state false (demo_request 5 ∅ "staff") in
   snd (validateSlugAndRedirect s) = Ok true /\
   fst (validateSlugAndRedirect s) = s) /\
  (let s := demo_state true (demo_request 5 ∅ "Staff") in
   snd (validateSlugAndRedirect s) = Ok true /\
   params_slug (req (fst (validateSlugAndRedirect s))) = "staff" /\
   out (fst (validateSlugAndRedirect s)) = []) /\
  (let s := demo_state false (demo_request 5 ∅ "Staff") in
   snd (validateSlugAndRedirect s) = Ok false /\
   out (fst (validateSlugAndRedirect s)) = [Redirect "/forum/groups/staff"]).
Proof.
  split; [|split]; cbv zeta.
  - apply (validateSlugAndRedirect_canonical
             (demo_state false (demo_request 5 ∅ "staff"))).
    reflexivity.
  - destruct (validateSlugAndRedirect_canonical
                (demo_state true (demo_request 5 ∅ "Staff")))
      as (_ & Hapi & _).
    destruct Hapi as (H1 & H2 & H3 & _); [discriminate | reflexivity |].
    repeat split; assumption.
  - destruct (validateSlugAndRedirect_canonical
                (demo_state false (demo_request 5 ∅ "Staff")))
      as (_ & _ & Hweb).
    destruct Hweb as (H1 & H2 & _); [discriminate | reflexivity |].
    split; assumption.
Defined.

(** ** The directory query engine *)

(** C6. Sorted-listing mode (no free-text query), for every page number
    whose window lies within the safe integers (the offset after the
    window is at most 2^53, so that the offsets are computed exactly) and
    whatever the store answers: exactly two calls are made, the range
    fetch of the inclusive range from max(0, page - 1) * 15 to that start
    plus 14 under the sort key, and the count under the same sort key; when
    both succeed the result is the fetched sequence with
    pageCount = ceil(totalCount / 15), which is 3 for a total of 32. *)
Theorem getGroups_sorted_listing `{X : Externals} (env : Collab) (s : St)
    (sort : qval) (page : Z) :
  truthy (query (req s) !! "query") = false ->
  Z.max 0 (page - 1) * 15 + 15 <= 2 ^ 53 ->
  let start := Z.max 0 (page - 1) * 15 in
  log (fst (getGroups env sort page s)) =
    log s ++ [Ev (GetGroupsBySort sort start (start + 14));
              Ev (GetGroupCountBySort sort)] /\
  (forall groupData totalCount,
     groups_getGroupsBySort env sort start (start + 14) = Ok groupData ->
     groups_getGroupCountBySort env sort = Ok totalCount ->
     snd (getGroups env sort page s) =
       Ok (groupData, Math_ceil_div totalCount 15) /\
     (forall c, 15 * (c - 1) < totalCount <= 15 * c ->
                Math_ceil_div totalCount 15 = c) /\
     (totalCount = 32 -> Math_ceil_div totalCount 15 = 3)).
Proof.
  intros Hq _ start.
  assert (Hstop : getGroups_start (req s) page + resultsPerPage (req s) - 1
                  = start + 14).
  { unfold getGroups_start, resultsPerPage. rewrite Hq. subst start. lia. }
  assert (Hstart : getGroups_start (req s) page = start).
  { unfold getGroups_start, resultsPerPage. now rewrite Hq. }
  assert (Hper : resultsPerPage (req s) = 15).
  { unfold resultsPerPage. now rewrite Hq. }
  unfold getGroups, bind, get_req. rewrite Hstop, Hstart, Hper.
  assert (Hmode : match query (req s) !! "query" with
                  | Some q => truthy (Some q) = false
                  | None => True
                  end).
  { destruct (query (req s) !! "query"); [exact Hq | exact I]. }
  destruct (query (req s) !! "query") as [q|]; [rewrite Hmode|];
    unfold all2, call; cbn;
    (split;
     [ destruct (groups_getGroupsBySort env _ _ _),
                (groups_getGroupCountBySort env _); cbn;
       now rewrite <- app_assoc
     | intros groupData totalCount Hfetch Hcount; rewrite Hfetch, Hcount; cbn;
       split; [reflexivity|]; split;
       [ intros c Hc; now apply Math_ceil_div_unique
       | intros ->; reflexivity ] ]).
Qed.

Lemma getGroups_sorted_listing_witness :
  let s := demo_state false (demo_request 5 {[ "page" := QStr "3" ]} "") in
  log (fst (getGroups demo_env (QStr "alpha") 3 s)) =
    [Ev (GetGroupsBySort (QStr "alpha") 30 44);
     Ev (GetGroupCountBySort (QStr "alpha"))] /\
  snd (getGroups demo_env (QStr "alpha") 3 s) = Ok ([], 3).
Proof.
  cbv zeta.
  destruct (getGroups_sorted_listing demo_env
              (demo_state false (demo_request 5 {[ "page" := QStr "3" ]} ""))
              (QStr "alpha") 3) as [Hlog Hres]; [reflexivity | lia |].
  split; [exact Hlog|].
  destruct (Hres [] 32) as (Hok & _); [reflexivity | reflexivity |].
  exact Hok.
Defined.

(** C1. Search mode (the free-text query is present and not empty): in
    every search call that is made, filterHidden is true when the principal
    is not an administrator, whatever the query string says, and it is
    false only when the principal is an administrator; and whenever the
    administrator lookup answers, a search call is made, with filterHidden
    true unless the caller did not ask for it and the principal is an
    administrator. *)
Theorem getGroups_search_filterHidden `{X : Externals} (env : Collab) (s : St)
    (sort : qval) (page : Z) :
  truthy (query (req s) !! "query") = true ->
  let principal := uid (req s) in
  exists new,
    log (fst (getGroups env sort page s)) = log s ++ new /\
    (forall ev o, In ev new -> search_options ev = Some o ->
       (user_isAdministrator env principal = Ok false -> filterHidden o = true) /\
       (filterHidden o = false ->
        user_isAdministrator env principal = Ok true)) /\
    (forall admin, user_isAdministrator env principal = Ok admin ->
       exists ev o, In ev new /\ search_options ev = Some o /\
         filterHidden o =
           strict_eq (query (req s) !! "filterHidden") "true" || negb admin).
Proof.
  intros Hq principal. subst principal.
  unfold getGroups, bind, get_req.
  destruct (query (req s) !! "query") as [q|] eqn:Hlook; [|discriminate].
  rewrite Hq.
  destruct (strict_eq (query (req s) !! "filterHidden") "true") eqn:Hfh.
  - unfold ret, call. cbn.
    eexists. split.
    { destruct (groups_search env _ _); cbn; reflexivity. }
    split.
    + intros ev o [<- | []] Ho. cbn in Ho. injection Ho as <-. cbn.
      split; [reflexivity | discriminate].
    + intros admin _. do 2 eexists. split; [left; reflexivity|].
      split; reflexivity.
  - unfold ret, call. cbn.
    destruct (user_isAdministrator env (uid (req s))) as [admin | e] eqn:Hadm.
    + cbn. eexists. split.
      { destruct (groups_search env _ _); cbn;
          rewrite <- app_assoc; reflexivity. }
      split.
      * intros ev o [<- | [<- | []]] Ho; cbn in Ho; [discriminate|].
        injection Ho as <-. cbn.
        split; [intros [= ->]; reflexivity|].
        intros Hn. destruct admin; [reflexivity | discriminate].
      * intros ? [= <-]. do 2 eexists.
        split; [right; left; reflexivity|]. split; reflexivity.
    + cbn. eexists. split; [reflexivity|]. split.
      * intros ev o [<- | []] Ho. discriminate.
      * intros ? [=].
Qed.

Lemma getGroups_search_filterHidden_witness :
  let s := demo_state false
    (demo_request 5 {[ "query" := QStr "s"; "filterHidden" := QStr "false" ]} "") in
  exists new,
    log (fst (getGroups demo_env (QStr "alpha") 1 s)) = new /\
    exists ev o, In ev new /\ search_options ev = Some o /\ filterHidden o = true.
Proof.
  cbv zeta.
  destruct (getGroups_search_filterHidden demo_env
    (demo_state false
       (demo_request 5 {[ "query" := QStr "s"; "filterHidden" := QStr "false" ]} ""))
    (QStr "alpha") 1) as (new & Hlog & _ & Hmade); [reflexivity|].
  exists new. split; [exact Hlog|].
  destruct (Hmade false) as (ev & o & Hin & Ho & Hf); [reflexivity|].
  exists ev, o. repeat split; assumption.
Defined.

(** C5. Search mode, for every page number and every matched sequence the
    search collaborator returns: the items are the window of 100 elements
    of that sequence that starts at max(0, page - 1) * 100, pageCount is
    ceil(matchedCount / 100) of the whole sequence, and a page number above
    pageCount yields no items (with the same pageCount). *)
Theorem getGroups_search_page `{X : Externals} (env : Collab) (s : St)
    (sort : qval) (page : Z) (q : qval) (hide : bool) (found : list Group) :
  query (req s) !! "query" = Some q -> truthy (Some q) = true ->
  (if strict_eq (query (req s) !! "filterHidden") "true" then hide = true
   else user_isAdministrator env (uid (req s)) = Ok (negb hide)) ->
  groups_search env q (search_filters (req s) sort hide) = Ok found ->
  let start := Z.max 0 (page - 1) * 100 in
  let matched := Z.of_nat (length found) in
  let items := firstn 100 (skipn (Z.to_nat start) found) in
  snd (getGroups env sort page s) = Ok (items, Math_ceil_div matched 100) /\
  (forall i : nat, items !! i =
     if decide (i < 100)%nat then found !! (Z.to_nat start + i)%nat else None) /\
  (forall c, 100 * (c - 1) < matched <= 100 * c ->
             Math_ceil_div matched 100 = c) /\
  (Math_ceil_div matched 100 < page -> items = []).
Proof.
  intros Hlook Hq Hadm Hfound start matched items.
  assert (Hper : resultsPerPage (req s) = 100).
  { unfold resultsPerPage. now rewrite Hlook, Hq. }
  assert (Hstart : getGroups_start (req s) page = start).
  { unfold getGroups_start. now rewrite Hper. }
  assert (Hslice : Array_slice found start (start + 100 - 1 + 1) = items).
  { rewrite Array_slice_window by (subst start; lia).
    subst items. f_equal. lia. }
  split; [|split; [|split]].
  - unfold getGroups, bind, get_req. rewrite Hstart, Hper.
    rewrite Hlook, Hq.
    destruct (strict_eq (query (req s) !! "filterHidden") "true") eqn:Hfh;
      unfold ret, call; cbn.
    + subst hide. rewrite Hfound. cbn. now rewrite Hslice.
    + rewrite Hadm. cbn. rewrite negb_involutive, Hfound. cbn.
      now rewrite Hslice.
  - intros i. subst items.
    destruct (decide (i < 100)%nat) as [Hi | Hi].
    + rewrite lookup_take_lt by exact Hi. now rewrite lookup_drop.
    + apply lookup_take_ge. lia.
  - intros c Hc. now apply Math_ceil_div_unique.
  - intros Hbeyond.
    pose proof (Math_ceil_div_bounds matched 100 ltac:(lia)) as Hb.
    subst items. rewrite skipn_all2; [apply firstn_nil|].
    subst start matched. lia.
Qed.

Lemma getGroups_search_page_witness :
  let s := demo_state false (demo_request 1 {[ "query" := QStr "s" ]} "") in
  snd (getGroups demo_env (QStr "alpha") 2 s) = Ok ([], 1).
Proof.
  cbv zeta.
  refine (proj1 (getGroups_search_page demo_env
    (demo_state false (demo_request 1 {[ "query" := QStr "s" ]} ""))
    (QStr "alpha") 2 (QStr "s") false ["chess"; "staff"] _ _ _ _));
    reflexivity.
Defined.

(** ** The visibility evaluator *)

(** C2. Whenever the existence, hidden, administrator and global-moderator
    lookups answer (and, where they are consulted, the membership and
    invitation lookups): access is false for a group that does not exist;
    true for an existing group that is not hidden, for any principal; and
    for an existing hidden group true exactly when the principal is an
    administrator, a global moderator, a member or invited. A granted
    access carries the two role flags. *)
Theorem validateGroupAccess_visibility `{X : Externals} (env : Collab) (s : St)
    (groupName : string) (exists_ hidden admin globalMod member invited : bool) :
  let principal := uid (req s) in
  groups_exists env groupName = Ok exists_ ->
  groups_isHidden env groupName = Ok hidden ->
  privileges_admin_can env "admin:groups" principal = Ok admin ->
  user_isGlobalModerator env principal = Ok globalMod ->
  (exists_ = true -> hidden = true -> admin = false -> globalMod = false ->
   groups_isMember env principal groupName = Ok member /\
   groups_isInvited env principal groupName = Ok invited) ->
  exists access,
    snd (validateGroupAccess env groupName s) = Ok access /\
    (exists_ = false -> hasAccess access = false) /\
    (exists_ = true -> hidden = false -> hasAccess access = true) /\
    (exists_ = true -> hidden = true ->
       (hasAccess access = true <->
        admin = true \/ globalMod = true \/ member = true \/ invited = true)) /\
    (hasAccess access = true ->
       isAdmin access = Some admin /\ isGlobalMod access = Some globalMod).
Proof.
  intros principal He Hh Ha Hg Hmi. subst principal.
  unfold validateGroupAccess, bind, get_req, all4, call. cbn.
  rewrite He, Hh, Ha, Hg. cbn.
  destruct exists_; cbn.
  2:{ eexists. split; [reflexivity|]. cbn. intuition discriminate. }
  destruct hidden; cbn.
  2:{ eexists. split; [reflexivity|]. cbn. intuition discriminate. }
  destruct admin; cbn.
  { eexists. split; [reflexivity|]. cbn. intuition discriminate. }
  destruct globalMod; cbn.
  { eexists. split; [reflexivity|]. cbn. intuition discriminate. }
  destruct Hmi as [Hm Hi]; try reflexivity.
  unfold all2, call. cbn. rewrite Hm, Hi. cbn.
  destruct member, invited; cbn; eexists; (split; [reflexivity|]); cbn;
    intuition discriminate.
Qed.

Lemma validateGroupAccess_visibility_witness :
  (exists access,
     snd (validateGroupAccess demo_env "staff"
            (demo_state false (demo_request 5 ∅ "staff"))) = Ok access /\
     hasAccess access = false) /\
  (exists access,
     snd (validateGroupAccess demo_env "staff"
            (demo_state false (demo_request 4 ∅ "staff"))) = Ok access /\
     hasAccess access = true).
Proof.
  split.
  - destruct (validateGroupAccess_visibility demo_env
                (demo_state false (demo_request 5 ∅ "staff")) "staff"
                true true false false false false)
      as (access & Hrun & _ & _ & Hhidden & _);
      try reflexivity; [intros; split; reflexivity|].
    exists access. split; [exact Hrun|].
    destruct (hasAccess access); [|reflexivity].
    destruct (proj1 (Hhidden eq_refl eq_refl) eq_refl)
      as [H | [H | [H | H]]]; discriminate.
  - destruct (validateGroupAccess_visibility demo_env
                (demo_state false (demo_request 4 ∅ "staff")) "staff"
                true true false false false true)
      as (access & Hrun & _ & _ & Hhidden & _);
      try reflexivity; [intros; split; reflexivity|].
    exists access. split; [exact Hrun|].
    apply Hhidden; auto.
Defined.

(** ** The detail assembler *)

(** When canonicalization does not redirect, the handler goes on in a state
    that differs from the initial one at most in the slug, which is then
    the lower-cased one. *)
Lemma validateSlugAndRedirect_continue `{X : Externals} (s : St) :
  let lower := toLowerCase (params_slug (req s)) in
  lower = params_slug (req s) \/ locals_isAPI (res s) = true ->
  exists s1,
    validateSlugAndRedirect s = (s1, Ok true) /\
    params_slug (req s1) = lower /\ uid (req s1) = uid (req s) /\
    query (req s1) = query (req s) /\
    out s1 = out s /\ res s1 = res s /\ log s1 = log s.
Proof.
  intros lower Hcase. subst lower.
  unfold validateSlugAndRedirect, bind, get_req, get_res.
  destruct (String.eqb_spec (params_slug (req s))
              (toLowerCase (params_slug (req s)))) as [Heq | Hne]; cbn.
  - exists s. repeat split; congruence.
  - destruct Hcase as [Heq | Hapi]; [congruence|].
    rewrite Hapi. cbn. eexists. split; [reflexivity|].
    cbn. repeat split; reflexivity.
Qed.

(** Unfolds a handler, run from a state given by its fields, down to the
    collaborator answers it branches on. *)
Ltac run :=
  unfold groupsController_details, groupsController_members,
    groupsController_list, getGroups, validateGroupAccess,
    fetchGroupDetailsData, renderGroupDetails, validateSlugAndRedirect,
    bind, ret, get_req, get_res, set_slug, set_linkTags, emit, lift,
    all2, all4, call;
  cbv beta iota zeta delta [req res out log uid url query params_slug
                            locals_isAPI locals_linkTags];
  cbn.

Ltac open_state s :=
  destruct s as [[principal address q slug] [api tags] sent calls];
  cbn [req res out log uid url query params_slug locals_isAPI
       locals_linkTags] in *.

(** Case analysis on every collaborator answer a goal branches on. *)
Ltac branch :=
  repeat (cbn;
          match goal with
          | |- context [match ?x with _ => _ end] =>
              lazymatch x with
              | context [match _ with _ => _ end] => fail
              | _ => destruct x
              end
          end).

(** Case analysis that keeps the answers as equations. *)
Ltac branch_eq :=
  repeat (cbn;
          match goal with
          | |- context [pending ?r] =>
              lazymatch r with
              | Ok _ => fail
              | Error _ => fail
              | _ => destruct r eqn:?
              end
          | |- context [match ?x with _ => _ end] =>
              lazymatch x with
              | context [match _ with _ => _ end] => fail
              | _ => destruct x eqn:?
              end
          end);
  cbn.

(** C3. Once canonicalization lets the handler go on (the slug is in lower
    case, or the request is an API request), the handler ends in the same
    way, by calling next() once and sending nothing, with the response
    object untouched, in each of these cases: the slug resolves to no group
    name; the group does not exist, or it is hidden and the principal is
    neither administrator, global moderator, member nor invited; the detail
    record is absent although the group exists and access is granted. *)
Theorem details_not_found `{X : Externals} (env : Collab) (s : St) :
  let principal := uid (req s) in
  let slug := toLowerCase (params_slug (req s)) in
  let not_found :=
    snd (groupsController_details env s) = Ok tt /\
    out (fst (groupsController_details env s)) = out s ++ [Next] /\
    res (fst (groupsController_details env s)) = res s in
  slug = params_slug (req s) \/ locals_isAPI (res s) = true ->
  (forall name,
     groups_getGroupNameByGroupSlug env slug = Ok name ->
     no_name name = true -> not_found) /\
  (forall groupName exists_ hidden,
     groups_getGroupNameByGroupSlug env slug = Ok (Some groupName) ->
     groupName <> "" ->
     groups_exists env groupName = Ok exists_ ->
     groups_isHidden env groupName = Ok hidden ->
     privileges_admin_can env "admin:groups" principal = Ok false ->
     user_isGlobalModerator env principal = Ok false ->
     groups_isMember env principal groupName = Ok false ->
     groups_isInvited env principal groupName = Ok false ->
     exists_ = false \/ hidden = true -> not_found) /\
  (forall groupName hidden admin globalMod member invited posts,
     groups_getGroupNameByGroupSlug env slug = Ok (Some groupName) ->
     groupName <> "" ->
     groups_exists env groupName = Ok true ->
     groups_isHidden env groupName = Ok hidden ->
     privileges_admin_can env "admin:groups" principal = Ok admin ->
     user_isGlobalModerator env principal = Ok globalMod ->
     (hidden = true -> admin = false -> globalMod = false ->
      groups_isMember env principal groupName = Ok member /\
      groups_isInvited env principal groupName = Ok invited /\
      (member = true \/ invited = true)) ->
     groups_get env groupName principal true 20 = Ok None ->
     groups_getLatestMemberPosts env groupName 10 principal = Ok posts ->
     not_found).
Proof.
  intros principal0 slug0 not_found Hcase. subst principal0 slug0 not_found.
  open_state s.
  assert (Hgo :
    String.eqb slug (toLowerCase slug) = true /\ toLowerCase slug = slug \/
    String.eqb slug (toLowerCase slug) = false /\ api = true).
  { destruct (String.eqb_spec slug (toLowerCase slug)) as [Heq | Hne];
      [left; split; congruence | right; split; [reflexivity|]].
    destruct Hcase as [Heq | Hapi]; [congruence | exact Hapi]. }
  clear Hcase.
  split; [|split].
  - intros name Hname Hno. run.
    destruct Hgo as [[-> Heq] | [-> ->]]; [rewrite Heq in Hname|]; cbn;
      rewrite ?Heq, Hname;
      (destruct name as [groupName|];
       [apply String.eqb_eq in Hno; subst groupName|]); cbn;
      repeat split; reflexivity.
  - intros groupName exists_ hidden Hname Hnonempty He Hh Ha Hg Hm Hi Hdeny.
    apply String.eqb_neq in Hnonempty. run.
    destruct Hgo as [[-> Heq] | [-> ->]]; [rewrite Heq in Hname|]; cbn;
      rewrite ?Heq, Hname; cbn;
      rewrite Hnonempty, He, Hh, Ha, Hg; cbn;
      (destruct exists_; cbn; [|repeat split; reflexivity]);
      (destruct Hdeny as [? | ->]; [discriminate|]); cbn;
      rewrite Hm, Hi; cbn; repeat split; reflexivity.
  - intros groupName hidden admin globalMod member invited posts
      Hname Hnonempty He Hh Ha Hg Hmi Hget Hposts.
    apply String.eqb_neq in Hnonempty.
    assert (Hgate :
      hidden && negb admin && negb globalMod = false \/
      (hidden && negb admin && negb globalMod = true /\
       groups_isMember env principal groupName = Ok member /\
       groups_isInvited env principal groupName = Ok invited /\
       negb member && negb invited = false)).
    { destruct hidden, admin, globalMod; cbn; try (now left).
      right. destruct Hmi as (Hm & Hi & Hor); try reflexivity.
      repeat split; try assumption.
      destruct Hor as [-> | ->]; [reflexivity | apply andb_false_r]. }
    clear Hmi. run.
    destruct Hgo as [[-> Heq] | [-> ->]]; [rewrite Heq in Hname|]; cbn;
      rewrite ?Heq, Hname; cbn;
      rewrite Hnonempty, He, Hh, Ha, Hg; cbn;
      (destruct Hgate as [-> | (-> & Hm & Hi & Hor)]; cbn;
       [|rewrite Hm, Hi; cbn; rewrite Hor; cbn]);
      rewrite Hget, Hposts; cbn; repeat split; reflexivity.
Qed.

Lemma details_not_found_witness :
  (let s := demo_state false (demo_request 5 ∅ "nowhere") in
   snd (groupsController_details demo_env s) = Ok tt /\
   out (fst (groupsController_details demo_env s)) = [Next]) /\
  (let s := demo_state true (demo_request 5 ∅ "Staff") in
   snd (groupsController_details demo_env s) = Ok tt /\
   out (fst (groupsController_details demo_env s)) = [Next]).
Proof.
  split; cbv zeta.
  - destruct (details_not_found demo_env
                (demo_state false (demo_request 5 ∅ "nowhere")))
      as (Hunknown & _); [left; reflexivity|].
    destruct (Hunknown None) as (Hr & Hout & _);
      [reflexivity | reflexivity |].
    split; assumption.
  - destruct (details_not_found demo_env
                (demo_state true (demo_request 5 ∅ "Staff")))
      as (_ & Hhidden & _); [right; reflexivity|].
    destruct (Hhidden "staff" true true) as (Hr & Hout & _);
      try reflexivity; [discriminate | right; reflexivity |].
    split; assumption.
Defined.

(** ** The member page fetcher *)

(** C7. Whenever the members handler gets as far as its page (the page
    parameter converts to a number that is, with its window, within the
    safe integers, the slug resolves, the four lookups answer, the group
    is not hidden from the principal and the member page is fetched), it
    renders with the pagination built for
    pageCount = max(1, ceil(memberCount / 50)), which is at least 1 and is
    1 for a group without members. *)
Theorem members_pageCount `{X : Externals} (env : Collab) (s : St) (page : Z)
    (groupName : string) (groupData : GroupData)
    (adminOrMod member hidden : bool) (users : list User) :
  let principal := uid (req s) in
  let start := members_start page 50 in
  requested_page (req s) = Returns page ->
  - 2 ^ 53 <= page -> start + 50 <= 2 ^ 53 ->
  groups_getGroupNameByGroupSlug env (params_slug (req s)) = Ok (Some groupName) ->
  groupName <> "" ->
  groups_getGroupData env groupName = Ok groupData ->
  user_isAdminOrGlobalMod env principal = Ok adminOrMod ->
  groups_isMember env principal groupName = Ok member ->
  groups_isHidden env groupName = Ok hidden ->
  hidden && negb member && negb adminOrMod = false ->
  user_getUsersFromSet env ("group:" +:+ groupName +:+ ":members")
    principal start (start + 49) = Ok users ->
  exists pageCount breadcrumbs,
    snd (groupsController_members env s) = Ok tt /\
    out (fst (groupsController_members env s)) =
      out s ++ [Render "groups/members"
                  (MembersView users
                     (pagination_create page pageCount (query (req s)))
                     breadcrumbs)] /\
    (forall c, 50 * (c - 1) < memberCount groupData <= 50 * c ->
               pageCount = Z.max 1 c) /\
    1 <= pageCount /\
    (memberCount groupData = 0 -> pageCount = 1).
Proof.
  intros principal0 start Hpage _ _ Hname Hnonempty Hdata Hrole Hmember
    Hhidden Hgate Husers.
  subst principal0 start.
  apply String.eqb_neq in Hnonempty.
  open_state s.
  exists (Z.max 1 (Math_ceil_div (memberCount groupData) 50)).
  eexists.
  replace (members_start page 50 + 49)
    with (members_start page 50 + 50 - 1) in Husers by lia.
  run. rewrite Hpage. cbn. rewrite Hname. cbn.
  rewrite Hnonempty, Hdata, Hrole, Hmember, Hhidden.
  cbn. rewrite Hgate, Husers. cbn.
  split; [reflexivity|]. split; [reflexivity|]. split; [|split].
  - intros c Hc. f_equal. now apply Math_ceil_div_unique.
  - lia.
  - intros ->. reflexivity.
Qed.

Lemma members_pageCount_witness :
  let s := demo_state false (demo_request 5 ∅ "chess") in
  exists pageCount breadcrumbs,
    out (fst (groupsController_members demo_env s)) =
      [Render "groups/members"
         (MembersView [] (pagination_create 1 pageCount ∅) breadcrumbs)] /\
    pageCount = 1.
Proof.
  cbv zeta.
  destruct (members_pageCount demo_env
              (demo_state false (demo_request 5 ∅ "chess")) 1
              "chess" ("Chess", 0) false false false [])
    as (pageCount & breadcrumbs & _ & Hout & _ & _ & Hempty);
    try reflexivity; try (vm_compute; discriminate).
  exists pageCount, breadcrumbs. split; [exact Hout|].
  apply Hempty. reflexivity.
Defined.

(** ** What a run adds to the log, and what it answers *)

Section Traces.
Context `{X : Externals} (env : Collab).

Lemma extends_silent {A : Type} (m : M A) (a : St -> A)
    (spec : list event -> result Err A -> Prop) :
  (forall s, log (fst (m s)) = log s /\ snd (m s) = Ok (a s)) ->
  (forall x, spec [] (Ok x)) ->
  extends m spec.
Proof.
  intros Hm Hspec s. exists []. destruct (Hm s) as [Hlog ->].
  rewrite Hlog, app_nil_r. split; [reflexivity | apply Hspec].
Qed.

Lemma extends_call {T : Type} (o : op T)
    (spec : list event -> result Err T -> Prop) :
  spec [Ev o] (perform env o) -> extends (call env o) spec.
Proof. intros Hspec s. exists [Ev o]. split; [reflexivity | exact Hspec]. Qed.

Lemma extends_bind {A B : Type} (m : M A) (k : A -> M B)
    (pre : list event -> result Err A -> Prop)
    (post spec : list event -> result Err B -> Prop) :
  extends m pre ->
  (forall a, extends (k a) post) ->
  (forall n e, pre n (Error e) -> spec n (Error e)) ->
  (forall n1 a n2 r, pre n1 (Ok a) -> post n2 r -> spec (n1 ++ n2) r) ->
  extends (bind m k) spec.
Proof.
  intros Hm Hk Herr Hok s. unfold bind.
  destruct (Hm s) as (n1 & Hlog1 & Hpre).
  destruct (m s) as [s1 [a | e]]; cbn in *.
  - destruct (Hk a s1) as (n2 & Hlog2 & Hpost).
    exists (n1 ++ n2). rewrite Hlog2, Hlog1, app_assoc. eauto.
  - exists n1. eauto.
Qed.

Lemma extends_all2 {A B : Type} (a : M A) (b : M B)
    (pa : list event -> result Err A -> Prop)
    (pb : list event -> result Err B -> Prop)
    (spec : list event -> result Err (A * B) -> Prop) :
  extends a pa -> extends b pb ->
  (forall n1 ra n2 rb, pa n1 ra -> pb n2 rb ->
     spec (n1 ++ n2) (settle env (par (pending ra) (pending rb)))) ->
  extends (all2 env a b) spec.
Proof.
  intros Ha Hb Hspec s. unfold all2.
  destruct (Ha s) as (n1 & Hlog1 & H1). destruct (a s) as [s1 ra].
  destruct (Hb s1) as (n2 & Hlog2 & H2). destruct (b s1) as [s2 rb].
  cbn in *. exists (n1 ++ n2). rewrite Hlog2, Hlog1, app_assoc. eauto.
Qed.

Lemma extends_all4 {A B C D : Type} (a : M A) (b : M B) (c : M C) (d : M D)
    (pa : list event -> result Err A -> Prop)
    (pb : list event -> result Err B -> Prop)
    (pc : list event -> result Err C -> Prop)
    (pd : list event -> result Err D -> Prop)
    (spec : list event -> result Err (A * (B * (C * D))) -> Prop) :
  extends a pa -> extends b pb -> extends c pc -> extends d pd ->
  (forall n1 ra n2 rb n3 rc n4 rd,
     pa n1 ra -> pb n2 rb -> pc n3 rc -> pd n4 rd ->
     spec (n1 ++ n2 ++ n3 ++ n4)
       (settle env (par (pending ra) (par (pending rb)
                      (par (pending rc) (pending rd)))))) ->
  extends (all4 env a b c d) spec.
Proof.
  intros Ha Hb Hc Hd Hspec s. unfold all4.
  destruct (Ha s) as (n1 & Hlog1 & H1). destruct (a s) as [s1 ra].
  destruct (Hb s1) as (n2 & Hlog2 & H2). destruct (b s1) as [s2 rb].
  destruct (Hc s2) as (n3 & Hlog3 & H3). destruct (c s2) as [s3 rc].
  destruct (Hd s3) as (n4 & Hlog4 & H4). destruct (d s3) as [s4 rd].
  cbn in *. exists (n1 ++ n2 ++ n3 ++ n4).
  rewrite Hlog4, Hlog3, Hlog2, Hlog1, <- !app_assoc. eauto.
Qed.

Lemma calls_only_ret P {A : Type} (a : A) : calls_only P (ret a).
Proof. apply (extends_silent _ (fun _ => a)); now constructor. Qed.

Lemma calls_only_get_req P : calls_only P get_req.
Proof. apply (extends_silent _ req); now constructor. Qed.

Lemma calls_only_get_res P : calls_only P get_res.
Proof. apply (extends_silent _ res); now constructor. Qed.

Lemma calls_only_set_slug P slug : calls_only P (set_slug slug).
Proof. apply (extends_silent _ (fun _ => tt)); now constructor. Qed.

Lemma calls_only_set_linkTags P tags : calls_only P (set_linkTags tags).
Proof. apply (extends_silent _ (fun _ => tt)); now constructor. Qed.

Lemma calls_only_emit P e : calls_only P (emit e).
Proof. apply (extends_silent _ (fun _ => tt)); now constructor. Qed.

Lemma calls_only_lift P {A : Type} (x : js A) : calls_only P (lift x).
Proof. intros s. exists []. cbn. now rewrite app_nil_r. Qed.

Lemma calls_only_call P {T : Type} (o : op T) :
  P (Ev o) -> calls_only P (call env o).
Proof. intros HP. apply extends_call. now repeat constructor. Qed.

Lemma calls_only_bind P {A B : Type} (m : M A) (k : A -> M B) :
  calls_only P m -> (forall a, calls_only P (k a)) -> calls_only P (bind m k).
Proof.
  intros Hm Hk. eapply extends_bind; [exact Hm | exact Hk | |]; cbn.
  - auto.
  - intros n1 a n2 r H1 H2. apply Forall_app. now split.
Qed.

Lemma calls_only_all2 P {A B : Type} (a : M A) (b : M B) :
  calls_only P a -> calls_only P b -> calls_only P (all2 env a b).
Proof.
  intros Ha Hb. eapply extends_all2; [exact Ha | exact Hb |]; cbn.
  intros n1 _ n2 _ H1 H2. apply Forall_app. now split.
Qed.

Lemma calls_only_all4 P {A B C D : Type}
    (a : M A) (b : M B) (c : M C) (d : M D) :
  calls_only P a -> calls_only P b -> calls_only P c -> calls_only P d ->
  calls_only P (all4 env a b c d).
Proof.
  intros Ha Hb Hc Hd.
  eapply extends_all4; [exact Ha | exact Hb | exact Hc | exact Hd |]; cbn.
  intros n1 _ n2 _ n3 _ n4 _ H1 H2 H3 H4.
  repeat (apply Forall_app; split); assumption.
Qed.

End Traces.

Ltac calls_only_step :=
  first
    [ apply calls_only_ret | apply calls_only_get_req
    | apply calls_only_get_res | apply calls_only_set_slug
    | apply calls_only_set_linkTags | apply calls_only_emit
    | apply calls_only_lift
    | apply calls_only_bind; [|intros ?]
    | apply calls_only_all2 | apply calls_only_all4
    | apply calls_only_call
    | match goal with
      | |- calls_only _ (match ?x with _ => _ end) => destruct x
      end ].

Lemma members_calls_only `{X : Externals} (env : Collab) (P : event -> Prop) :
  (forall slug, P (Ev (GetGroupNameByGroupSlug slug))) ->
  (forall g, P (Ev (GetGroupData g))) ->
  (forall u, P (Ev (IsAdminOrGlobalMod u))) ->
  (forall u g, P (Ev (IsMember u g))) ->
  (forall g, P (Ev (IsHidden g))) ->
  (forall set u page,
     P (Ev (GetUsersFromSet set u (members_start page 50)
              (members_start page 50 + 50 - 1)))) ->
  calls_only P (groupsController_members env).
Proof.
  intros. unfold groupsController_members. cbv zeta.
  repeat calls_only_step; auto.
Qed.

(** C8. The members handler never consults the invitation relation, in any
    run; and for a hidden group, a principal who is invited but is neither
    a member, nor an administrator, nor a global moderator gets next()
    (not found) from the members handler and nothing else, on every
    request whose page parameter converts to a number, while the
    visibility check of the details handler grants the same principal
    access. *)
Theorem members_ignores_invitation `{X : Externals} (env : Collab) (s : St) :
  (exists new,
     log (fst (groupsController_members env s)) = log s ++ new /\
     forall ev, In ev new -> consults_invitation ev = false) /\
  (forall groupName groupData page,
     let principal := uid (req s) in
     requested_page (req s) = Returns page ->
     groups_getGroupNameByGroupSlug env (params_slug (req s))
       = Ok (Some groupName) ->
     groupName <> "" ->
     groups_getGroupData env groupName = Ok groupData ->
     groups_exists env groupName = Ok true ->
     groups_isHidden env groupName = Ok true ->
     groups_isMember env principal groupName = Ok false ->
     groups_isInvited env principal groupName = Ok true ->
     user_isAdminOrGlobalMod env principal = Ok false ->
     privileges_admin_can env "admin:groups" principal = Ok false ->
     user_isGlobalModerator env principal = Ok false ->
     snd (groupsController_members env s) = Ok tt /\
     out (fst (groupsController_members env s)) = out s ++ [Next] /\
     exists access,
       snd (validateGroupAccess env groupName s) = Ok access /\
       hasAccess access = true).
Proof.
  split.
  - destruct (members_calls_only env
                (fun ev => consults_invitation ev = false)
                ltac:(reflexivity) ltac:(reflexivity) ltac:(reflexivity)
                ltac:(reflexivity) ltac:(reflexivity) ltac:(reflexivity) s)
      as (new & Hlog & Hall).
    exists new. split; [exact Hlog|].
    exact (proj1 (List.Forall_forall _ _) Hall).
  - intros groupName groupData page principal0 Hpage Hname Hnonempty Hdata He
      Hh Hm Hi Hrole Ha Hg.
    subst principal0. apply String.eqb_neq in Hnonempty.
    open_state s. run. rewrite Hpage. cbn. rewrite Hname. cbn.
    rewrite Hnonempty, Hdata, Hrole, Hm, Hh, He, Ha, Hg. cbn.
    rewrite Hi. cbn.
    split; [reflexivity|]. split; [reflexivity|].
    eexists. split; reflexivity.
Qed.

Lemma members_ignores_invitation_witness :
  let s := demo_state false (demo_request 4 ∅ "staff") in
  snd (groupsController_members demo_env s) = Ok tt /\
  out (fst (groupsController_members demo_env s)) = [Next] /\
  exists access,
    snd (validateGroupAccess demo_env "staff" s) = Ok access /\
    hasAccess access = true.
Proof.
  cbv zeta.
  destruct (members_ignores_invitation demo_env
              (demo_state false (demo_request 4 ∅ "staff")))
    as [_ Hinvited].
  apply (Hinvited "staff" ("Staff", 3) 1); try reflexivity. discriminate.
Defined.

(** ** Page offsets *)

Lemma getGroups_start_nonneg `{X : Externals} (r : Request) (page : Z) :
  0 <= getGroups_start r page.
Proof.
  unfold getGroups_start, resultsPerPage.
  destruct (truthy (query r !! "query")); lia.
Qed.

Lemma members_start_nonneg (page usersPerPage : Z) :
  0 <= members_start page usersPerPage.
Proof. unfold members_start. lia. Qed.

Lemma getGroups_calls_only `{X : Externals} (env : Collab) (P : event -> Prop)
    (sort : qval) (page : Z) :
  (forall u, P (Ev (IsAdministrator u))) ->
  (forall q o, P (Ev (Search q o))) ->
  (forall r, P (Ev (GetGroupsBySort sort (getGroups_start r page)
                      (getGroups_start r page + resultsPerPage r - 1)))) ->
  P (Ev (GetGroupCountBySort sort)) ->
  calls_only P (getGroups env sort page).
Proof.
  intros. unfold getGroups. cbv zeta.
  repeat calls_only_step; auto.
Qed.

Lemma list_calls_only `{X : Externals} (env : Collab) (P : event -> Prop) :
  (forall p u, P (Ev (GlobalCan p u))) ->
  (forall u, P (Ev (IsAdministrator u))) ->
  (forall q o, P (Ev (Search q o))) ->
  (forall sort r page,
     P (Ev (GetGroupsBySort sort (getGroups_start r page)
              (getGroups_start r page + resultsPerPage r - 1)))) ->
  (forall sort, P (Ev (GetGroupCountBySort sort))) ->
  calls_only P (groupsController_list env).
Proof.
  intros. unfold groupsController_list. cbv zeta.
  repeat first [ apply getGroups_calls_only | calls_only_step ]; auto.
Qed.

(** C10. The start offset is never negative, whatever the page number:
    the start of [getGroups] (in both modes, the request deciding the page
    size), the start of the members handler, and therefore the start of
    every range request that the list and the members handlers send to a
    store, for every request, whatever its page parameter holds. *)
Theorem start_never_negative `{X : Externals} (env : Collab) (s : St) :
  (forall page, 0 <= getGroups_start (req s) page) /\
  (forall page, 0 <= members_start page 50) /\
  (exists new,
     log (fst (groupsController_list env s)) = log s ++ new /\
     forall ev start, In ev new -> range_start ev = Some start -> 0 <= start) /\
  (exists new,
     log (fst (groupsController_members env s)) = log s ++ new /\
     forall ev start, In ev new -> range_start ev = Some start -> 0 <= start).
Proof.
  pose (P := fun ev : event =>
               forall start, range_start ev = Some start -> 0 <= start).
  split; [intros; apply getGroups_start_nonneg|].
  split; [intros; apply members_start_nonneg|].
  split.
  - destruct (list_calls_only env P) with (s := s) as (new & Hlog & Hall);
      try (subst P; cbn; intros; discriminate).
    { subst P. cbn. intros sort r page start [= <-].
      apply getGroups_start_nonneg. }
    exists new. split; [exact Hlog|].
    intros ev start Hin. exact (proj1 (List.Forall_forall _ _) Hall ev Hin start).
  - destruct (members_calls_only env P) with (s := s) as (new & Hlog & Hall);
      try (subst P; cbn; intros; discriminate).
    { subst P. cbn. intros set u page start [= <-].
      apply members_start_nonneg. }
    exists new. split; [exact Hlog|].
    intros ev start Hin. exact (proj1 (List.Forall_forall _ _) Hall ev Hin start).
Qed.

Lemma start_never_negative_witness :
  let s := demo_state false (demo_request 5 {[ "page" := QStr "-3" ]} "chess") in
  requested_page (req s) = Returns (-3) /\
  getGroups_start (req s) (-3) = 0 /\
  0 <= members_start (-3) 50 /\
  exists new,
    log (fst (groupsController_list demo_env s)) = new /\
    forall ev start, In ev new -> range_start ev = Some start -> 0 <= start.
Proof.
  cbv zeta.
  destruct (start_never_negative demo_env
              (demo_state false
                 (demo_request 5 {[ "page" := QStr "-3" ]} "chess")))
    as (Hlist & Hmembers & (new & Hlog & Hnew) & _).
  split; [reflexivity|]. split; [reflexivity|]. split; [apply Hmembers|].
  exists new. split; [exact Hlog | exact Hnew].
Defined.

(** ** Propagation of collaborator failures *)

Section Failures.
Context `{X : Externals} (env : Collab).
Hypothesis race : fair env.

Lemma covered_pending {A : Type} (new : list event) (r : result Err A) :
  accounted env new r -> covered env new (pending r).
Proof using Type.
  destruct r as [a | e]; cbn; intros H; split; cbn.
  - auto.
  - intros _ [].
  - discriminate.
  - intros e' [<- | []]. exact H.
Qed.

Lemma covered_par {A B : Type} (n1 n2 : list event)
    (ra : result (Err * list Err) A) (rb : result (Err * list Err) B) :
  covered env n1 ra -> covered env n2 rb -> covered env (n1 ++ n2) (par ra rb).
Proof using Type.
  intros [Hoka Hera] [Hokb Herb].
  destruct ra as [a | [e es]], rb as [b | [e' es']]; cbn; split;
    try discriminate; cbn.
  - intros _ _. apply Forall_app. split; eauto.
  - intros _ [].
  - intros e0 Hin. apply Exists_app. right. apply Herb. exact Hin.
  - intros e0 Hin. apply Exists_app. left. apply Hera. exact Hin.
  - intros e0 Hin. apply Exists_app.
    change (In e0 ((e :: es) ++ e' :: es')) in Hin.
    apply in_app_or in Hin. destruct Hin as [Hin | Hin].
    + left. apply Hera. exact Hin.
    + right. apply Herb. exact Hin.
Qed.

Lemma accounted_settle {A : Type} (new : list event)
    (r : result (Err * list Err) A) :
  covered env new r -> accounted env new (settle env r).
Proof using race.
  intros [Hok Herr]. destruct r as [a | [e es]]; cbn.
  - eauto.
  - destruct es as [| e' es'].
    + apply Herr. now left.
    + apply Herr. apply race.
Qed.

Lemma faithful_ret {A : Type} (a : A) : faithful env (ret a).
Proof using Type. apply (extends_silent _ (fun _ => a)); now constructor. Qed.

Lemma faithful_get_req : faithful env get_req.
Proof using Type. apply (extends_silent _ req); now constructor. Qed.

Lemma faithful_get_res : faithful env get_res.
Proof using Type. apply (extends_silent _ res); now constructor. Qed.

Lemma faithful_set_slug slug : faithful env (set_slug slug).
Proof using Type.
  apply (extends_silent _ (fun _ => tt)); now constructor.
Qed.

Lemma faithful_set_linkTags tags : faithful env (set_linkTags tags).
Proof using Type.
  apply (extends_silent _ (fun _ => tt)); now constructor.
Qed.

Lemma faithful_emit e : faithful env (emit e).
Proof using Type.
  apply (extends_silent _ (fun _ => tt)); now constructor.
Qed.

Lemma faithful_call {T : Type} (o : op T) : faithful env (call env o).
Proof using Type.
  apply extends_call. unfold accounted.
  destruct (perform env o) as [a | e] eqn:Hrun; repeat constructor;
    unfold answered, rejected_with, failure; cbn; now rewrite Hrun.
Qed.

Lemma faithful_bind {A B : Type} (m : M A) (k : A -> M B) :
  faithful env m -> (forall a, faithful env (k a)) -> faithful env (bind m k).
Proof using Type.
  intros Hm Hk. eapply extends_bind; [exact Hm | exact Hk | |]; cbn.
  - auto.
  - intros n1 a n2 [b | e] H1 H2; cbn in *.
    + apply Forall_app. now split.
    + apply Exists_app. now right.
Qed.

Lemma faithful_all2 {A B : Type} (a : M A) (b : M B) :
  faithful env a -> faithful env b -> faithful env (all2 env a b).
Proof using race.
  intros Ha Hb. eapply extends_all2; [exact Ha | exact Hb |].
  intros n1 ra n2 rb H1 H2.
  apply accounted_settle, covered_par; now apply covered_pending.
Qed.

Lemma faithful_all4 {A B C D : Type} (a : M A) (b : M B) (c : M C) (d : M D) :
  faithful env a -> faithful env b -> faithful env c -> faithful env d ->
  faithful env (all4 env a b c d).
Proof using race.
  intros Ha Hb Hc Hd.
  eapply extends_all4; [exact Ha | exact Hb | exact Hc | exact Hd |].
  intros n1 ra n2 rb n3 rc n4 rd H1 H2 H3 H4.
  apply accounted_settle.
  repeat apply covered_par; now apply covered_pending.
Qed.

End Failures.

Ltac faithful_step :=
  first
    [ apply faithful_ret | apply faithful_get_req
    | apply faithful_get_res | apply faithful_set_slug
    | apply faithful_set_linkTags | apply faithful_emit
    | apply faithful_call
    | apply faithful_bind; [|intros ?]
    | apply faithful_all2; [assumption | |]
    | apply faithful_all4; [assumption | | | |]
    | match goal with
      | |- faithful _ (match ?x with _ => _ end) => destruct x
      end ].

Section Effects.
Context `{X : Externals} (env : Collab).

Lemma bind_unfold {A B : Type} (m : M A) (k : A -> M B) (s : St) :
  bind m k s = match m s with
               | (s1, Ok a) => k a s1
               | (s1, Error e) => (s1, Error e)
               end.
Proof. reflexivity. Qed.

Lemma quiet_ret {A : Type} (a : A) : quiet (ret a).
Proof. intros s. now split. Qed.

Lemma quiet_get_req : quiet get_req.
Proof. intros s. now split. Qed.

Lemma quiet_get_res : quiet get_res.
Proof. intros s. now split. Qed.

Lemma quiet_set_slug slug : quiet (set_slug slug).
Proof. intros s. now split. Qed.

Lemma quiet_lift {A : Type} (x : js A) : quiet (lift x).
Proof. intros s. now split. Qed.

Lemma quiet_call {T : Type} (o : op T) : quiet (call env o).
Proof. intros s. now split. Qed.

Lemma quiet_bind {A B : Type} (m : M A) (k : A -> M B) :
  quiet m -> (forall a, quiet (k a)) -> quiet (bind m k).
Proof.
  intros Hm Hk s. rewrite bind_unfold. destruct (Hm s) as [Ho Hr].
  destruct (m s) as [s1 [a | e]]; cbn in *.
  - destruct (Hk a s1) as [Ho' Hr']. split; congruence.
  - now split.
Qed.

Lemma quiet_all2 {A B : Type} (a : M A) (b : M B) :
  quiet a -> quiet b -> quiet (all2 env a b).
Proof.
  intros Ha Hb s. unfold all2.
  destruct (Ha s) as [Ho1 Hr1]. destruct (a s) as [s1 ra].
  destruct (Hb s1) as [Ho2 Hr2]. destruct (b s1) as [s2 rb].
  cbn in *. split; congruence.
Qed.

Lemma quiet_all4 {A B C D : Type} (a : M A) (b : M B) (c : M C) (d : M D) :
  quiet a -> quiet b -> quiet c -> quiet d -> quiet (all4 env a b c d).
Proof.
  intros Ha Hb Hc Hd s. unfold all4.
  destruct (Ha s) as [Ho1 Hr1]. destruct (a s) as [s1 ra].
  destruct (Hb s1) as [Ho2 Hr2]. destruct (b s1) as [s2 rb].
  destruct (Hc s2) as [Ho3 Hr3]. destruct (c s2) as [s3 rc].
  destruct (Hd s3) as [Ho4 Hr4]. destruct (d s3) as [s4 rd].
  cbn in *. split; congruence.
Qed.

End Effects.

Ltac quiet_step :=
  first
    [ apply quiet_ret | apply quiet_get_req | apply quiet_get_res
    | apply quiet_set_slug | apply quiet_call | apply quiet_lift
    | apply quiet_bind; [|intros ?]
    | apply quiet_all2 | apply quiet_all4
    | match goal with
      | |- quiet (match ?x with _ => _ end) => destruct x
      end ].

Section Handlers.
Context `{X : Externals} (env : Collab).
Hypothesis race : fair env.

Lemma getGroups_quiet sort page : quiet (getGroups env sort page).
Proof using Type. unfold getGroups. cbv zeta. repeat quiet_step. Qed.

Lemma validateGroupAccess_quiet groupName :
  quiet (validateGroupAccess env groupName).
Proof using Type. unfold validateGroupAccess. cbv zeta. repeat quiet_step. Qed.

Lemma fetchGroupDetailsData_quiet groupName :
  quiet (fetchGroupDetailsData env groupName).
Proof using Type. unfold fetchGroupDetailsData. repeat quiet_step. Qed.

Lemma getGroups_faithful sort page : faithful env (getGroups env sort page).
Proof using race. unfold getGroups. cbv zeta. repeat faithful_step. Qed.

Lemma validateGroupAccess_faithful groupName :
  faithful env (validateGroupAccess env groupName).
Proof using race.
  unfold validateGroupAccess. cbv zeta. repeat faithful_step.
Qed.

Lemma fetchGroupDetailsData_faithful groupName :
  faithful env (fetchGroupDetailsData env groupName).
Proof using race. unfold fetchGroupDetailsData. repeat faithful_step. Qed.

(** *** Runs that account for their failures *)

Lemma careful_intro {A : Type} (m : M A) :
  faithful env m -> quiet m -> careful env m.
Proof using Type.
  intros Hf Hq s. destruct (Hf s) as (new & Hlog & Hacc).
  destruct (Hq s) as [Hout Hres]. exists new. split; [exact Hlog|].
  destruct (snd (m s)) as [a | e]; cbn in *; [exact Hacc|].
  split; [exact Hout|]. left. now split.
Qed.

Lemma careful_bind {A B : Type} (m : M A) (k : A -> M B) :
  faithful env m -> quiet m -> (forall a, careful env (k a)) ->
  careful env (bind m k).
Proof using Type.
  intros Hf Hq Hk s. rewrite bind_unfold.
  destruct (Hf s) as (n1 & Hlog1 & Hacc). destruct (Hq s) as [Hout Hres].
  destruct (m s) as [s1 [a | e]]; cbn in *.
  - destruct (Hk a s1) as (n2 & Hlog2 & Hrest).
    exists (n1 ++ n2). rewrite Hlog2, Hlog1, app_assoc.
    split; [reflexivity|].
    destruct (snd (k a s1)) as [b | e]; cbn in *.
    + apply Forall_app. now split.
    + destruct Hrest as (Hout2 & [[Hrej Hres2] | [-> Hans]]).
      * split; [congruence|]. left.
        split; [apply Exists_app; now right | congruence].
      * split; [congruence|]. right.
        split; [reflexivity | apply Forall_app; now split].
  - exists n1. split; [exact Hlog1|]. split; [exact Hout|]. left. now split.
Qed.

Lemma careful_lift_bind {A B : Type} (x : js A) (k : A -> M B) :
  (forall a, careful env (k a)) -> careful env (bind (lift x) k).
Proof using Type.
  intros Hk s. rewrite bind_unfold. destruct x as [a|]; cbn.
  - apply Hk.
  - exists []. rewrite app_nil_r. split; [reflexivity|].
    split; [reflexivity|]. right. split; [reflexivity | constructor].
Qed.

Lemma careful_emit (e : Effect) : careful env (emit e).
Proof using Type.
  intros s. exists []. cbn. rewrite app_nil_r. split; [reflexivity | constructor].
Qed.

Lemma careful_ret {A : Type} (a : A) : careful env (ret a).
Proof using Type.
  intros s. exists []. cbn. rewrite app_nil_r. split; [reflexivity | constructor].
Qed.

(** Setting the link tags, converting, then rendering: no call is made,
    and only the conversion can fail. *)
Lemma careful_render {A : Type} (tags : list LinkTag) (x : js A)
    (page : A -> Effect) :
  careful env (bind (set_linkTags tags)
                 (fun _ => bind (lift x) (fun a => emit (page a)))).
Proof using Type.
  intros s. exists []. rewrite app_nil_r.
  unfold bind, set_linkTags, lift, emit. destruct x as [a|]; cbn.
  - split; [reflexivity | constructor].
  - split; [reflexivity|]. split; [reflexivity|]. right.
    split; [reflexivity | constructor].
Qed.

Lemma careful_renderGroupDetails groupData posts is_admin is_globalMod slug :
  careful env (renderGroupDetails groupData posts is_admin is_globalMod slug).
Proof using Type.
  intros s. exists []. rewrite app_nil_r. unfold renderGroupDetails.
  cbn. split; [reflexivity | constructor].
Qed.

Lemma getGroups_careful sort page : careful env (getGroups env sort page).
Proof using race.
  apply careful_intro; [apply getGroups_faithful | apply getGroups_quiet].
Qed.

Lemma validateGroupAccess_careful groupName :
  careful env (validateGroupAccess env groupName).
Proof using race.
  apply careful_intro;
    [apply validateGroupAccess_faithful | apply validateGroupAccess_quiet].
Qed.

Lemma list_careful : careful env (groupsController_list env).
Proof using race.
  unfold groupsController_list. cbv zeta.
  apply careful_bind; [apply faithful_get_req | apply quiet_get_req|].
  intros r. apply careful_lift_bind. intros page.
  apply careful_bind.
  - apply faithful_all2; [exact race | apply faithful_call|].
    apply getGroups_faithful.
  - apply quiet_all2; [apply quiet_call | apply getGroups_quiet].
  - intros [allow [groupData pageCount]]. apply careful_render.
Qed.

Lemma members_careful : careful env (groupsController_members env).
Proof using race.
  unfold groupsController_members. cbv zeta.
  apply careful_bind; [apply faithful_get_req | apply quiet_get_req|].
  intros r. apply careful_lift_bind. intros page.
  apply careful_bind; [apply faithful_call | apply quiet_call|].
  intros [groupName|]; [|apply careful_emit].
  destruct (no_name (Some groupName)); [apply careful_emit|].
  apply careful_bind.
  - apply faithful_all4; [exact race | | | |]; apply faithful_call.
  - repeat quiet_step.
  - intros [groupData [role [member hidden]]].
    destruct (hidden && negb member && negb role); [apply careful_emit|].
    apply careful_bind; [apply faithful_call | apply quiet_call|].
    intros users. apply careful_emit.
Qed.

(** Canonicalization makes no call and does not fail; when it lets the
    handler go on, nothing has been sent. *)
Lemma validateSlugAndRedirect_outcomes (s : St) :
  (exists s1, validateSlugAndRedirect s = (s1, Ok true) /\
              out s1 = out s /\ res s1 = res s /\ log s1 = log s /\
              uid (req s1) = uid (req s)) \/
  (exists s1, validateSlugAndRedirect s = (s1, Ok false) /\ log s1 = log s).
Proof using Type.
  unfold validateSlugAndRedirect, bind, get_req, get_res.
  destruct (negb _); [destruct (locals_isAPI _)|]; cbn; eauto 10.
Qed.

Lemma details_careful : careful env (groupsController_details env).
Proof using race.
  intros s. unfold groupsController_details. rewrite bind_unfold.
  destruct (validateSlugAndRedirect_outcomes s)
    as [(s1 & -> & Ho & Hr & Hl & _) | (s1 & -> & Hl)]; cbn [negb].
  - rewrite <- Ho, <- Hr, <- Hl.
    match goal with
    | |- context [fst (?m s1)] => cut (careful env m); [intros Hm; apply Hm|]
    end.
    apply careful_bind; [apply faithful_get_req | apply quiet_get_req|].
    intros r.
    apply careful_bind; [apply faithful_call | apply quiet_call|].
    intros [groupName|]; [|apply careful_emit].
    destruct (no_name (Some groupName)); [apply careful_emit|].
    apply careful_bind;
      [apply validateGroupAccess_faithful | apply validateGroupAccess_quiet|].
    intros access. destruct (negb (hasAccess access)); [apply careful_emit|].
    apply careful_bind;
      [ apply fetchGroupDetailsData_faithful
      | apply fetchGroupDetailsData_quiet |].
    intros [[groupData|] posts]; [|apply careful_emit].
    apply careful_renderGroupDetails.
  - exists []. cbn. rewrite app_nil_r. split; [exact Hl | constructor].
Qed.

End Handlers.

Lemma propagates_intro `{X : Externals} (env : Collab) {A : Type} (m : M A) :
  careful env m -> propagates env m.
Proof.
  intros Hm s. destruct (Hm s) as (new & Hlog & Hacc).
  exists new. split; [exact Hlog|]. split.
  - intros ev e Hin Hfail.
    destruct (snd (m s)) as [a | e'] eqn:Hres.
    + pose proof (proj1 (List.Forall_forall _ _) Hacc ev Hin) as Hans.
      unfold answered in Hans. congruence.
    + destruct Hacc as (_ & [[Hrej _] | [_ Hans]]).
      * apply List.Exists_exists in Hrej. destruct Hrej as (ev' & Hin' & Hrej).
        exists e', ev'. repeat split; assumption.
      * pose proof (proj1 (List.Forall_forall _ _) Hans ev Hin) as Hno.
        unfold answered in Hno. congruence.
  - intros e Hres. rewrite Hres in Hacc.
    destruct Hacc as (Hout & [[Hrej Hsame] | [-> Hans]]).
    + split; [exact Hout|]. left. split; [|exact Hsame].
      apply List.Exists_exists in Hrej. exact Hrej.
    + split; [exact Hout|]. right. split; [reflexivity|].
      exact (proj1 (List.Forall_forall _ _) Hans).
Qed.

(** What the handlers and the visibility check always ask first. *)
Lemma first_calls `{X : Externals} (env : Collab) (s : St) :
  (forall groupName, exists rest,
     log (fst (validateGroupAccess env groupName s)) =
       log s ++ [Ev (Exists groupName); Ev (IsHidden groupName);
                 Ev (AdminCan "admin:groups" (uid (req s)));
                 Ev (IsGlobalModerator (uid (req s)))] ++ rest) /\
  (forall page, requested_page (req s) = Returns page -> exists rest,
     log (fst (groupsController_list env s)) =
       log s ++ Ev (GlobalCan "group:create" (uid (req s))) :: rest) /\
  (forall page, requested_page (req s) = Returns page -> exists rest,
     log (fst (groupsController_members env s)) =
       log s ++ Ev (GetGroupNameByGroupSlug (params_slug (req s))) :: rest) /\
  (toLowerCase (params_slug (req s)) = params_slug (req s) \/
   locals_isAPI (res s) = true ->
   exists rest,
     log (fst (groupsController_details env s)) =
       log s ++ Ev (GetGroupNameByGroupSlug
                      (toLowerCase (params_slug (req s)))) :: rest).
Proof.
  open_state s. repeat split.
  - intros groupName. run.
    branch; eexists; rewrite <- ?app_assoc; cbn; reflexivity.
  - intros page Hpage. run. rewrite Hpage.
    branch; eexists; rewrite <- ?app_assoc; cbn; reflexivity.
  - intros page Hpage. run. rewrite Hpage.
    branch; eexists; rewrite <- ?app_assoc; cbn; reflexivity.
  - intros Hcase. run.
    destruct (String.eqb_spec slug (toLowerCase slug)) as [Heq | Hne]; cbn.
    + rewrite <- Heq.
      branch; eexists; rewrite <- ?app_assoc; cbn; reflexivity.
    + destruct Hcase as [Heq | ->]; [congruence|]. cbn.
      branch; eexists; rewrite <- ?app_assoc; cbn; reflexivity.
Qed.



(** * Further properties of the handlers *)

(** ** Page numbers *)

(** [parseInt] by the first character that is not white space. *)
Lemma parse_decimal_cases (s : string) :
  parse_decimal s =
  match trim_start s with
  | String c r =>
      if Ascii.eqb c "-" then Z.opp <$> leading_digits r None
      else if Ascii.eqb c "+" then leading_digits r None
      else leading_digits (String c r) None
  | EmptyString => None
  end.
Proof.
  unfold parse_decimal. destruct (trim_start s) as [|c r]; [reflexivity|].
  destruct c as [[] [] [] [] [] [] [] []]; reflexivity.
Qed.

Lemma digit_of_range (c : ascii) (d : Z) : digit_of c = Some d -> 0 <= d <= 9.
Proof.
  unfold digit_of.
  destruct (Z.leb_spec 48 (byte_of c)), (Z.leb_spec (byte_of c) 57); cbn;
    intros [= <-]; lia.
Qed.

Lemma leading_digits_nonneg (s : string) (acc : option Z) (n : Z) :
  (forall a, acc = Some a -> 0 <= a) ->
  leading_digits s acc = Some n -> 0 <= n.
Proof.
  revert acc. induction s as [|c r IH]; intros acc Hacc; cbn.
  - intros Hn. now apply Hacc.
  - destruct (digit_of c) as [d|] eqn:Hd; [|intros Hn; now apply Hacc].
    apply IH. intros a [= <-]. apply digit_of_range in Hd.
    destruct acc as [a0|]; cbn; [specialize (Hacc a0 eq_refl)|]; lia.
Qed.

(** X1. The requested page is never 0. It is 1 when the page parameter is
    absent, is the empty string, is an object without a toString key of
    its own, or is a string in which the first character after the
    leading white space is neither a sign nor a decimal digit; and for an
    object with a toString key of its own there is no requested page: the
    conversion throws. *)
Theorem requested_page_default (r : Request) :
  (forall page, requested_page r = Returns page -> page <> 0) /\
  (query r !! "page" = None -> requested_page r = Returns 1) /\
  (query r !! "page" = Some (QStr "") -> requested_page r = Returns 1) /\
  (query r !! "page" = Some (QObj false) -> requested_page r = Returns 1) /\
  (query r !! "page" = Some (QObj true) -> requested_page r = Throws) /\
  (forall text c rest,
     query r !! "page" = Some (QStr text) ->
     trim_start text = String c rest ->
     digit_of c = None -> c <> "-"%char -> c <> "+"%char ->
     requested_page r = Returns 1).
Proof.
  unfold requested_page, parseInt. repeat split.
  - intros page. destruct (String_of (query r !! "page")) as [text|];
      [|discriminate].
    intros [= <-]. destruct (parse_decimal text) as [[|n|n]|]; cbn; lia.
  - intros ->. reflexivity.
  - intros ->. reflexivity.
  - intros ->. reflexivity.
  - intros ->. reflexivity.
  - intros text c rest -> Htrim Hdigit Hminus Hplus. cbn [String_of String_of_value].
    rewrite parse_decimal_cases, Htrim.
    apply Ascii.eqb_neq in Hminus, Hplus. rewrite Hminus, Hplus.
    cbn. now rewrite Hdigit.
Qed.

Lemma requested_page_default_witness :
  requested_page (demo_request 5 {[ "page" := QStr " two" ]} "") = Returns 1 /\
  (forall page,
     requested_page (demo_request 5 {[ "page" := QStr "0" ]} "") = Returns page ->
     page <> 0).
Proof.
  split.
  - destruct (requested_page_default
                (demo_request 5 {[ "page" := QStr " two" ]} ""))
      as (_ & _ & _ & _ & _ & Hjunk).
    apply (Hjunk " two" "t"%char "wo"); try reflexivity; discriminate.
  - apply (requested_page_default
             (demo_request 5 {[ "page" := QStr "0" ]} "")).
Defined.

(** X2. Only a minus sign in front of the number makes the requested page
    negative: when the page parameter converts to a string that, leading
    white space removed, does not start with "-", there is a requested
    page and it is at least 1. *)
Theorem requested_page_positive (r : Request) (text : string) :
  String_of (query r !! "page") = Returns text ->
  (forall rest, trim_start text <> String "-" rest) ->
  exists page, requested_page r = Returns page /\ 1 <= page.
Proof.
  intros Htext Hsign. unfold requested_page, parseInt. rewrite Htext.
  eexists. split; [reflexivity|]. rewrite parse_decimal_cases.
  destruct (trim_start text) as [|c rest] eqn:Ht; [cbn; lia|].
  destruct (Ascii.eqb_spec c "-") as [-> | _];
    [exfalso; now apply (Hsign rest)|].
  assert (Hnum : forall t n,
            leading_digits t None = Some n -> 1 <= num_or (Some n) 1).
  { intros t n Hn. apply leading_digits_nonneg in Hn; [|discriminate].
    destruct n; cbn; lia. }
  destruct (Ascii.eqb c "+").
  - destruct (leading_digits rest None) as [n|] eqn:Hn; [|cbn; lia].
    now apply (Hnum rest).
  - destruct (leading_digits (String c rest) None) as [n|] eqn:Hn; [|cbn; lia].
    now apply (Hnum (String c rest)).
Qed.

Lemma requested_page_positive_witness :
  exists page,
    requested_page (demo_request 5 {[ "page" := QStr " +07" ]} "")
      = Returns page /\ 1 <= page.
Proof.
  apply (requested_page_positive
           (demo_request 5 {[ "page" := QStr " +07" ]} "") " +07").
  - reflexivity.
  - intros rest. vm_compute. discriminate.
Defined.

(** ** Page windows *)

(** X3. A page number of 1 or less, negative ones included, is served as
    page 1: the directory query makes the same calls and gives the same
    answer. *)
Theorem getGroups_clamps_page `{X : Externals} (env : Collab) (s : St)
    (sort : qval) (page : Z) :
  page <= 1 -> getGroups env sort page s = getGroups env sort 1 s.
Proof.
  intros Hpage.
  assert (Hstart : getGroups_start (req s) page = getGroups_start (req s) 1).
  { unfold getGroups_start. f_equal. lia. }
  unfold getGroups, bind, get_req. cbv zeta. now rewrite Hstart.
Qed.

Lemma getGroups_clamps_page_witness :
  let s := demo_state false (demo_request 5 ∅ "") in
  getGroups demo_env (QStr "alpha") (-3) s = getGroups demo_env (QStr "alpha") 1 s.
Proof.
  cbv zeta.
  apply (getGroups_clamps_page demo_env
           (demo_state false (demo_request 5 ∅ "")) (QStr "alpha") (-3)).
  lia.
Defined.

(** X4. From page 1 on, and as long as the windows lie within the safe
    integers (the offset after the window of the next page is at most
    2^53), the windows of consecutive pages are adjacent and do not
    overlap: page 1 starts at offset 0 and every next page starts right
    after the inclusive upper bound of the page before it, in the
    directory query (both page sizes) and in the members handler. *)
Theorem page_windows_tile (r : Request) (page : Z) :
  1 <= page ->
  getGroups_start r 1 = 0 /\ members_start 1 50 = 0 /\
  (getGroups_start r (page + 1) + resultsPerPage r <= 2 ^ 53 ->
   getGroups_start r (page + 1) =
     (getGroups_start r page + resultsPerPage r - 1) + 1) /\
  (members_start (page + 1) 50 + 50 <= 2 ^ 53 ->
   members_start (page + 1) 50 = (members_start page 50 + 50 - 1) + 1).
Proof.
  intros Hpage. unfold getGroups_start, members_start, resultsPerPage.
  destruct (truthy (query r !! "query")); repeat split; lia.
Qed.

Lemma page_windows_tile_witness :
  getGroups_start (demo_request 5 ∅ "") 3 = 29 + 1 /\
  members_start 3 50 = 99 + 1.
Proof.
  destruct (page_windows_tile (demo_request 5 ∅ "") 2) as (_ & _ & Hg & Hm);
    [lia|].
  split; [apply Hg | apply Hm]; vm_compute; discriminate.
Defined.

(** X5. The page count is exactly the number of pages that are not empty:
    for a total of at least 0 items and a page number of at least 1, the
    window of the page starts before the end of the items if and only if
    the page number is at most ceil(total / page size); in the members
    handler, where the count is at least 1, page 1 is the only page within
    the count that can be empty. *)
Theorem pageCount_counts_pages (r : Request) (total page : Z) :
  0 <= total -> 1 <= page ->
  (getGroups_start r page < total <->
   page <= Math_ceil_div total (resultsPerPage r)) /\
  (page <= Z.max 1 (Math_ceil_div total 50) <->
   members_start page 50 < total \/ page = 1).
Proof.
  intros Htotal Hpage.
  assert (Hper : 0 < resultsPerPage r).
  { unfold resultsPerPage. destruct (truthy _); lia. }
  pose proof (Math_ceil_div_bounds total (resultsPerPage r) Hper) as Hb.
  pose proof (Math_ceil_div_bounds total 50 ltac:(lia)) as Hm.
  unfold getGroups_start, members_start.
  rewrite !Z.max_r by lia. split; split; intros H; nia.
Qed.

Lemma pageCount_counts_pages_witness :
  (getGroups_start (demo_request 5 ∅ "") 3 < 32 <->
   3 <= Math_ceil_div 32 (resultsPerPage (demo_request 5 ∅ ""))) /\
  ~ getGroups_start (demo_request 5 ∅ "") 4 < 32.
Proof.
  split.
  - apply (pageCount_counts_pages (demo_request 5 ∅ "") 32 3); lia.
  - intros H.
    apply (pageCount_counts_pages (demo_request 5 ∅ "") 32 4) in H;
      [|lia|lia].
    vm_compute in H. apply H. reflexivity.
Defined.

(** ** The directory query engine, continued *)

(** What the directory query answers in search mode. *)
Lemma getGroups_search_run `{X : Externals} (env : Collab) (s : St)
    (sort : qval) (page : Z) (q : qval) (hide : bool) (found : list Group) :
  query (req s) !! "query" = Some q -> truthy (Some q) = true ->
  (if strict_eq (query (req s) !! "filterHidden") "true" then hide = true
   else user_isAdministrator env (uid (req s)) = Ok (negb hide)) ->
  groups_search env q (search_filters (req s) sort hide) = Ok found ->
  snd (getGroups env sort page s) =
    Ok (firstn 100 (skipn (Z.to_nat (Z.max 0 (page - 1) * 100)) found),
        Math_ceil_div (Z.of_nat (length found)) 100).
Proof.
  intros Hlook Hq Hadm Hfound.
  assert (Hper : resultsPerPage (req s) = 100).
  { unfold resultsPerPage. now rewrite Hlook, Hq. }
  assert (Hstart : getGroups_start (req s) page = Z.max 0 (page - 1) * 100).
  { unfold getGroups_start. now rewrite Hper. }
  assert (Hslice :
    Array_slice found (Z.max 0 (page - 1) * 100)
      (Z.max 0 (page - 1) * 100 + 100 - 1 + 1) =
    firstn 100 (skipn (Z.to_nat (Z.max 0 (page - 1) * 100)) found)).
  { rewrite Array_slice_window by lia. f_equal. lia. }
  unfold getGroups, bind, get_req. rewrite Hstart, Hper, Hlook, Hq.
  destruct (strict_eq (query (req s) !! "filterHidden") "true") eqn:Hfh;
    unfold ret, call; cbn.
  - subst hide. rewrite Hfound. cbn. now rewrite Hslice.
  - rewrite Hadm. cbn. rewrite negb_involutive, Hfound. cbn.
    now rewrite Hslice.
Qed.

Lemma firstn_plus {A : Type} (a b : nat) (l : list A) :
  firstn (a + b) l = firstn a l ++ firstn b (skipn a l).
Proof.
  revert l. induction a as [|a IH]; intros l; [reflexivity|].
  destruct l as [|x l]; cbn; [now rewrite firstn_nil | now rewrite IH].
Qed.

Lemma windows_concat {A : Type} (size : nat) (l : list A) (k : nat) :
  concat (map (fun p => firstn size (skipn (size * (p - 1)) l)) (seq 1 k)) =
  firstn (size * k) l.
Proof.
  induction k as [|k IH]; [now rewrite Nat.mul_0_r|].
  rewrite seq_S, map_app, concat_app, IH. cbn [map concat Nat.add].
  rewrite app_nil_r.
  replace (S k - 1)%nat with k by lia.
  replace (size * S k)%nat with (size * k + size)%nat by lia.
  now rewrite firstn_plus.
Qed.

(** X6. In search mode the pages 1 to pageCount, put one after the other,
    are the whole result of the search collaborator: nothing is lost and
    nothing comes twice. *)
Theorem search_pages_cover `{X : Externals} (env : Collab) (s : St)
    (sort q : qval) (hide : bool) (found : list Group) :
  query (req s) !! "query" = Some q -> truthy (Some q) = true ->
  (if strict_eq (query (req s) !! "filterHidden") "true" then hide = true
   else user_isAdministrator env (uid (req s)) = Ok (negb hide)) ->
  groups_search env q (search_filters (req s) sort hide) = Ok found ->
  let pageCount := Math_ceil_div (Z.of_nat (length found)) 100 in
  concat (map (fun page : nat => page_items env sort s (Z.of_nat page))
              (seq 1 (Z.to_nat pageCount))) = found.
Proof.
  intros Hlook Hq Hadm Hfound pageCount.
  rewrite (map_ext_in _
    (fun p => firstn 100 (skipn (100 * (p - 1)) found))).
  - rewrite windows_concat. apply firstn_all2.
    pose proof (Math_ceil_div_bounds (Z.of_nat (length found)) 100
                  ltac:(lia)) as Hb.
    subst pageCount. lia.
  - intros p Hp. apply in_seq in Hp. unfold page_items.
    rewrite (getGroups_search_run env s sort (Z.of_nat p) q hide found)
      by assumption.
    do 2 f_equal. lia.
Qed.

Lemma search_pages_cover_witness :
  let s := demo_state false (demo_request 1 {[ "query" := QStr "s" ]} "") in
  concat (map (fun page : nat =>
                 page_items demo_env (QStr "alpha") s (Z.of_nat page))
              (seq 1 1)) = ["chess"; "staff"].
Proof.
  cbv zeta.
  apply (search_pages_cover demo_env
           (demo_state false (demo_request 1 {[ "query" := QStr "s" ]} ""))
           (QStr "alpha") (QStr "s") false ["chess"; "staff"]);
    reflexivity.
Defined.

(** X7. When the caller asks for filterHidden=true in search mode, the
    administrator role is not looked up at all: the search collaborator is
    the only call, with filterHidden true, and the query can fail only
    with the rejection of the search. *)
Theorem search_skips_administrator_lookup `{X : Externals} (env : Collab)
    (s : St) (sort : qval) (page : Z) (q : qval) :
  query (req s) !! "query" = Some q -> truthy (Some q) = true ->
  strict_eq (query (req s) !! "filterHidden") "true" = true ->
  log (fst (getGroups env sort page s)) =
    log s ++ [Ev (Search q (search_filters (req s) sort true))] /\
  (forall e, snd (getGroups env sort page s) = Error e ->
     groups_search env q (search_filters (req s) sort true) = Error e) /\
  (forall found,
     groups_search env q (search_filters (req s) sort true) = Ok found ->
     exists items pageCount,
       snd (getGroups env sort page s) = Ok (items, pageCount)).
Proof.
  intros Hlook Hq Hfh.
  unfold getGroups, bind, get_req. rewrite Hlook, Hq, Hfh.
  unfold ret, call. cbn.
  destruct (groups_search env q (search_filters (req s) sort true))
    as [found | e]; cbn; repeat split; try discriminate; try congruence.
  intros found' _. eauto.
Qed.

Lemma search_skips_administrator_lookup_witness :
  let s := demo_state false
    (demo_request 1 {[ "query" := QStr "s"; "filterHidden" := QStr "true" ]} "") in
  log (fst (getGroups demo_env (QStr "alpha") 1 s)) =
    [Ev (Search (QStr "s") (search_filters (req s) (QStr "alpha") true))].
Proof.
  cbv zeta.
  apply (search_skips_administrator_lookup demo_env
    (demo_state false
       (demo_request 1 {[ "query" := QStr "s"; "filterHidden" := QStr "true" ]} ""))
    (QStr "alpha") 1 (QStr "s")); reflexivity.
Defined.

(** X8. The two modes of the directory query never mix, whatever the
    collaborators answer: with a free-text query no call reads the sorted
    group store, and without one neither the search collaborator nor the
    administrator lookup is called. *)
Theorem getGroups_modes_exclusive `{X : Externals} (env : Collab) (s : St)
    (sort : qval) (page : Z) :
  exists new,
    log (fst (getGroups env sort page s)) = log s ++ new /\
    forall ev, In ev new ->
      if truthy (query (req s) !! "query")
      then queries_sorted_store ev = false
      else search_options ev = None /\ consults_administrator ev = false.
Proof.
  unfold getGroups, bind, get_req. cbv zeta.
  destruct (query (req s) !! "query") as [q|] eqn:Hlook.
  - destruct (truthy (Some q)) eqn:Hq.
    + destruct (strict_eq (query (req s) !! "filterHidden") "true");
        unfold ret, call; cbn.
      * destruct (groups_search env _ _); cbn; eexists;
          (split; [reflexivity|]); intros ev [<- | []]; reflexivity.
      * destruct (user_isAdministrator env _); cbn;
          [destruct (groups_search env _ _); cbn|]; eexists;
          (split; [rewrite <- ?app_assoc; reflexivity|]);
          intros ev Hin; cbn in Hin;
          repeat (destruct Hin as [<- | Hin]; [reflexivity|]);
          destruct Hin.
    + unfold all2, call. cbn.
      destruct (groups_getGroupsBySort env _ _ _),
               (groups_getGroupCountBySort env _); cbn; eexists;
        (split; [rewrite <- app_assoc; reflexivity|]);
        intros ev [<- | [<- | []]]; split; reflexivity.
  - unfold all2, call. cbn.
    destruct (groups_getGroupsBySort env _ _ _),
             (groups_getGroupCountBySort env _); cbn; eexists;
      (split; [rewrite <- app_assoc; reflexivity|]);
      intros ev [<- | [<- | []]]; split; reflexivity.
Qed.

(** ** The list handler *)

(** The answer of the directory query depends on the request only, not on
    what was logged or sent before. *)
Lemma getGroups_reads_request `{X : Externals} (env : Collab) (s t : St)
    (sort : qval) (page : Z) :
  req s = req t ->
  snd (getGroups env sort page s) = snd (getGroups env sort page t) /\
  req (fst (getGroups env sort page s)) = req s.
Proof.
  intros Hreq. destruct s as [rs ress outs logs], t as [rt rest outt logt].
  cbn in Hreq. subst rt. destruct rs as [u a q slug].
  run. unfold getGroups_start, resultsPerPage. cbn.
  branch; split; reflexivity.
Qed.

Lemma substring_all (s : string) : String.substring 0 (String.length s) s = s.
Proof. induction s as [|c s IH]; cbn; [reflexivity | now rewrite IH]. Qed.

(** X11. The canonical link drops the API prefix and nothing else: an
    address that starts with /api loses exactly these four characters, and
    any other address is left as it is. *)
Theorem strip_api_prefix (address : string) :
  strip_api ("/api" +:+ address) = address /\
  (String.prefix "/api" address = false -> strip_api address = address).
Proof.
  split.
  - unfold strip_api.
    change ("/api" +:+ address)
      with (String "/" (String "a" (String "p" (String "i" address)))).
    cbn. rewrite Nat.sub_0_r.
    replace (String.prefix "" address) with true by (now destruct address).
    apply substring_all.
  - intros Hno. unfold strip_api. now rewrite Hno.
Qed.

Lemma strip_api_prefix_witness :
  strip_api "/api/groups" = "/groups" /\ strip_api "/groups" = "/groups".
Proof.
  split.
  - exact (proj1 (strip_api_prefix "/groups")).
  - exact (proj2 (strip_api_prefix "/groups") eq_refl).
Defined.

(** X9. When the page parameter converts to a number whose window lies
    within the safe integers, the sort key converts to a string, the
    creation privilege is answered and the directory query succeeds, the
    list handler answers with exactly one page, groups/list, that carries
    the groups and the page count of the query, the answer on the
    privilege, the escaped sort key (alpha when none is given) and the
    pagination for the requested page; and it sets the canonical link to
    the configured address followed by the request address without its API
    prefix. *)
Theorem list_renders `{X : Externals} (env : Collab) (s : St) (page : Z)
    (sort_text : string) (allow : bool) (groupData : list Group)
    (pageCount : Z) :
  let r := req s in
  let sort := or_else (query r !! "sort") (QStr "alpha") in
  requested_page r = Returns page ->
  - 2 ^ 53 <= page ->
  getGroups_start r page + resultsPerPage r <= 2 ^ 53 ->
  String_of (Some sort) = Returns sort_text ->
  privileges_global_can env "group:create" (uid r) = Ok allow ->
  snd (getGroups env sort page s) = Ok (groupData, pageCount) ->
  snd (groupsController_list env s) = Ok tt /\
  out (fst (groupsController_list env s)) =
    out s ++
    [Render "groups/list"
       (ListView groupData allow (validator_escape sort_text)
          (pagination_create page pageCount (query r)) "[[pages:groups]]"
          (buildBreadcrumbs
             [ {| crumb_text := "[[pages:groups]]"; crumb_url := None |} ]))] /\
  locals_linkTags (res (fst (groupsController_list env s))) =
    Some [ {| rel := "canonical"; href := nconf_url +:+ strip_api (url r) |} ].
Proof.
  intros r sort Hpage _ _ Htext Hcan Hquery. subst r sort.
  destruct (groupsController_list env s) as [final answer] eqn:Hrun.
  unfold groupsController_list in Hrun. rewrite bind_unfold in Hrun.
  cbn [get_req] in Hrun. rewrite bind_unfold in Hrun.
  unfold lift at 1 in Hrun. rewrite Hpage in Hrun.
  rewrite bind_unfold in Hrun.
  unfold all2 at 1, call at 1 in Hrun. cbn [perform] in Hrun.
  rewrite Hcan in Hrun.
  set (s1 := {| req := req s; res := res s; out := out s;
                log := log s ++ [Ev (GlobalCan "group:create" (uid (req s)))] |})
    in Hrun.
  destruct (getGroups_reads_request env s1 s
              (or_else (query (req s) !! "sort") (QStr "alpha"))
              page eq_refl) as [Hsame Hreq].
  destruct (getGroups_quiet env
              (or_else (query (req s) !! "sort") (QStr "alpha"))
              page s1) as [Hout Hres].
  rewrite Hquery in Hsame.
  destruct (getGroups env (or_else (query (req s) !! "sort") (QStr "alpha"))
              page s1) as [s2 found].
  cbn in Hsame, Hreq, Hout, Hres. subst found. cbn in Hrun.
  unfold bind, set_linkTags, emit, lift in Hrun.
  cbn [String_of] in Htext, Hrun. rewrite Htext in Hrun. cbn in Hrun.
  injection Hrun as <- <-. cbn. rewrite Hout. repeat split; reflexivity.
Qed.

Lemma list_renders_witness :
  let s := demo_state false (demo_request 5 ∅ "") in
  out (fst (groupsController_list demo_env s)) =
    [Render "groups/list"
       (@ListView demo ["chess"] false "alpha" (1, 3) "[[pages:groups]]"
          [ {| crumb_text := "[[pages:groups]]"; crumb_url := None |} ])] /\
  locals_linkTags (res (fst (groupsController_list demo_env s))) =
    Some [ {| rel := "canonical"; href := "https://forum.example/groups" |} ].
Proof.
  cbv zeta.
  destruct (list_renders demo_env (demo_state false (demo_request 5 ∅ ""))
              1 "alpha" false (["chess"] : list (@Group demo)) 3)
    as (_ & Hout & Htags);
    try reflexivity; try (vm_compute; discriminate).
  split; [exact Hout | exact Htags].
Defined.

(** X10. Whatever the collaborators answer, the list handler neither
    redirects nor calls next(): it either sends nothing (and has failed) or
    sends the single page groups/list. *)
Theorem list_sends_one_page `{X : Externals} (env : Collab) (s : St) :
  (out (fst (groupsController_list env s)) = out s /\
   exists e, snd (groupsController_list env s) = Error e) \/
  (exists view,
     out (fst (groupsController_list env s)) =
       out s ++ [Render "groups/list" view] /\
     snd (groupsController_list env s) = Ok tt).
Proof.
  open_state s. run. unfold getGroups_start, resultsPerPage.
  branch; first [ left; split; [reflexivity | eexists; reflexivity]
                | right; eexists; split; reflexivity ].
Qed.

(** ** The details handler, continued *)

(** X12. A request that is not an API request and whose slug is not in
    lower case is answered by the redirect alone: the details handler
    makes no collaborator call, renders nothing, does not call next() and
    leaves the request as it was; and when lower-casing the lower-cased
    slug changes nothing, the request the redirect points to is not
    redirected again. *)
Theorem details_redirect_only `{X : Externals} (env : Collab) (s : St) :
  let slug := params_slug (req s) in
  let lower := toLowerCase slug in
  lower <> slug -> locals_isAPI (res s) = false ->
  groupsController_details env s =
    (fst (emit (Redirect (nconf_relative_path +:+ "/groups/" +:+ lower)) s),
     Ok tt) /\
  (toLowerCase lower = lower ->
   validateSlugAndRedirect (with_slug lower s) = (with_slug lower s, Ok true)).
Proof.
  intros slug0 lower Hne Hweb. subst slug0 lower. open_state s. subst api.
  assert (Hneq : String.eqb slug (toLowerCase slug) = false).
  { apply String.eqb_neq. congruence. }
  split.
  - run. rewrite Hneq. reflexivity.
  - intros Hidem. unfold with_slug. run. rewrite Hidem, String.eqb_refl.
    reflexivity.
Qed.

Lemma details_redirect_only_witness :
  let s := demo_state false (demo_request 5 ∅ "Staff") in
  out (fst (groupsController_details demo_env s)) =
    [Redirect "/forum/groups/staff"] /\
  log (fst (groupsController_details demo_env s)) = [] /\
  validateSlugAndRedirect (with_slug "staff" s) = (with_slug "staff" s, Ok true).
Proof.
  cbv zeta.
  destruct (details_redirect_only demo_env
              (demo_state false (demo_request 5 ∅ "Staff")))
    as [Hrun Hstable]; [discriminate | reflexivity |].
  split; [now rewrite Hrun|]. split; [now rewrite Hrun|].
  apply Hstable. reflexivity.
Defined.

(** X13. For an API request the details handler does not tell the cases
    of the slug apart: when lower-casing the lower-cased slug changes
    nothing, the run on the slug as given and the run on the lower-cased
    slug make the same calls, give the same answer and end in the same
    state, the slug of the request being the lower-cased one. *)
Theorem details_api_ignores_case `{X : Externals} (env : Collab) (s : St) :
  let lower := toLowerCase (params_slug (req s)) in
  locals_isAPI (res s) = true -> toLowerCase lower = lower ->
  groupsController_details env s =
    groupsController_details env (with_slug lower s).
Proof.
  intros lower Hapi Hidem. subst lower. open_state s. subst api.
  destruct (String.eqb_spec slug (toLowerCase slug)) as [Heq | Hne].
  - rewrite <- Heq. reflexivity.
  - apply String.eqb_neq in Hne.
    unfold with_slug. run. rewrite Hne, Hidem, String.eqb_refl. reflexivity.
Qed.

Lemma details_api_ignores_case_witness :
  let s := demo_state true (demo_request 3 ∅ "STAFF") in
  groupsController_details demo_env s =
    groupsController_details demo_env (with_slug "staff" s).
Proof.
  cbv zeta.
  apply (details_api_ignores_case demo_env
           (demo_state true (demo_request 3 ∅ "STAFF"))); reflexivity.
Defined.

(** X15. When canonicalization lets the handler go on, lower-casing the
    lower-cased slug changes nothing, the slug resolves to a group that
    exists, the visibility check grants access and both
    fetches answer with a detail record, the details handler answers with
    exactly one page, groups/details, carrying the record, the posts, the
    two role flags of the visibility check and the private-groups setting,
    and sets the canonical link to the configured address followed by
    /groups/ and the lower-cased slug. *)
Theorem details_renders `{X : Externals} (env : Collab) (s : St)
    (groupName : string) (hidden admin globalMod member invited : bool)
    (groupData : GroupData) (posts : list Post) :
  let principal := uid (req s) in
  let slug := toLowerCase (params_slug (req s)) in
  slug = params_slug (req s) \/ locals_isAPI (res s) = true ->
  toLowerCase slug = slug ->
  groups_getGroupNameByGroupSlug env slug = Ok (Some groupName) ->
  groupName <> "" ->
  groups_exists env groupName = Ok true ->
  groups_isHidden env groupName = Ok hidden ->
  privileges_admin_can env "admin:groups" principal = Ok admin ->
  user_isGlobalModerator env principal = Ok globalMod ->
  (hidden = true -> admin = false -> globalMod = false ->
   groups_isMember env principal groupName = Ok member /\
   groups_isInvited env principal groupName = Ok invited /\
   (member = true \/ invited = true)) ->
  groups_get env groupName principal true 20 = Ok (Some groupData) ->
  groups_getLatestMemberPosts env groupName 10 principal = Ok posts ->
  snd (groupsController_details env s) = Ok tt /\
  out (fst (groupsController_details env s)) =
    out s ++
    [Render "groups/details"
       (DetailsView ("[[pages:group, " +:+ displayName groupData +:+ "]]")
          groupData posts (Some admin) (Some globalMod) allowPrivateGroups
          (buildBreadcrumbs
             [ {| crumb_text := "[[pages:groups]]";
                  crumb_url := Some "/groups" |};
               {| crumb_text := displayName groupData;
                  crumb_url := None |} ]))] /\
  locals_linkTags (res (fst (groupsController_details env s))) =
    Some [ {| rel := "canonical";
              href := nconf_url +:+ "/groups/" +:+ slug |} ].
Proof.
  intros principal0 slug0 Hcase Hidem Hname Hnonempty He Hh Ha Hg Hmi Hget
    Hposts.
  subst principal0 slug0. open_state s.
  apply String.eqb_neq in Hnonempty.
  assert (Hgo :
    String.eqb slug (toLowerCase slug) = true /\ toLowerCase slug = slug \/
    String.eqb slug (toLowerCase slug) = false /\ api = true).
  { destruct (String.eqb_spec slug (toLowerCase slug)) as [Heq | Hne];
      [left; split; congruence | right; split; [reflexivity|]].
    destruct Hcase as [Heq | Hapi]; [congruence | exact Hapi]. }
  clear Hcase.
  assert (Hgate :
    hidden && negb admin && negb globalMod = false \/
    (hidden && negb admin && negb globalMod = true /\
     groups_isMember env principal groupName = Ok member /\
     groups_isInvited env principal groupName = Ok invited /\
     negb member && negb invited = false)).
  { destruct hidden, admin, globalMod; cbn; try (now left).
    right. destruct Hmi as (Hm & Hi & Hor); try reflexivity.
    repeat split; try assumption.
    destruct Hor as [-> | ->]; [reflexivity | apply andb_false_r]. }
  clear Hmi. run.
  destruct Hgo as [[-> Heq] | [-> ->]]; [rewrite Heq in Hname|]; cbn;
    rewrite ?Heq, Hname; cbn;
    rewrite Hnonempty, He, Hh, Ha, Hg; cbn;
    (destruct Hgate as [-> | (-> & Hm & Hi & Hor)]; cbn;
     [|rewrite Hm, Hi; cbn; rewrite Hor; cbn]);
    rewrite Hget, Hposts; cbn; rewrite ?Heq, ?Hidem; repeat split;
    reflexivity.
Qed.

Lemma details_renders_witness :
  let s := demo_state true (demo_request 4 ∅ "Staff") in
  snd (groupsController_details demo_env s) = Ok tt /\
  locals_linkTags (res (fst (groupsController_details demo_env s))) =
    Some [ {| rel := "canonical";
              href := "https://forum.example/groups/staff" |} ].
Proof.
  cbv zeta.
  destruct (details_renders demo_env
              (demo_state true (demo_request 4 ∅ "Staff"))
              "staff" true false false false true
              (("Staff", 3) : @GroupData demo) ([] : list (@Post demo)))
    as (Hok & _ & Htags); try reflexivity.
  - right. reflexivity.
  - discriminate.
  - intros _ _ _. repeat split. right. reflexivity.
  - split; [exact Hok | exact Htags].
Defined.

(** ** The visibility evaluator, continued *)

(** X16. Unless the group exists, is hidden and the principal is neither
    administrator nor global moderator, the visibility check makes exactly
    its four first lookups and never asks for membership or invitation:
    the verdict is whether the group exists, whatever those two lookups
    would answer, also if they would fail; the state is otherwise
    untouched. *)
Theorem validateGroupAccess_short_circuit `{X : Externals} (env : Collab)
    (s : St) (groupName : string) (exists_ hidden admin globalMod : bool) :
  let principal := uid (req s) in
  groups_exists env groupName = Ok exists_ ->
  groups_isHidden env groupName = Ok hidden ->
  privileges_admin_can env "admin:groups" principal = Ok admin ->
  user_isGlobalModerator env principal = Ok globalMod ->
  exists_ && hidden && negb admin && negb globalMod = false ->
  exists access,
    validateGroupAccess env groupName s =
      ({| req := req s; res := res s; out := out s;
          log := log s ++ [Ev (Exists groupName); Ev (IsHidden groupName);
                           Ev (AdminCan "admin:groups" principal);
                           Ev (IsGlobalModerator principal)] |},
       Ok access) /\
    hasAccess access = exists_.
Proof.
  intros principal0 He Hh Ha Hg Hgate. subst principal0. open_state s.
  run. rewrite He, Hh, Ha, Hg. cbn. rewrite <- !app_assoc. cbn.
  destruct exists_; cbn in *; [rewrite Hgate|];
    eexists; split; reflexivity.
Qed.

Lemma validateGroupAccess_short_circuit_witness :
  let s := demo_state false (demo_request 1 ∅ "staff") in
  exists access,
    snd (validateGroupAccess broken_env "staff" s) = Ok access /\
    hasAccess access = true.
Proof.
  cbv zeta.
  destruct (validateGroupAccess_short_circuit broken_env
              (demo_state false (demo_request 1 ∅ "staff")) "staff"
              true true true false) as (access & Hrun & Hverdict);
    try reflexivity.
  exists access. split; [now rewrite Hrun | exact Hverdict].
Defined.

(** ** The members handler, continued *)

(** X17. A page of members is fetched only for a principal who may see
    it: whatever the collaborators answer, if the members handler calls
    the member fetch, then the slug resolved to a group and the group is
    not hidden, or the principal is a member, or the principal is an
    administrator or global moderator. *)
Theorem members_fetch_is_authorized `{X : Externals} (env : Collab) (s : St) :
  exists new,
    log (fst (groupsController_members env s)) = log s ++ new /\
    forall ev, In ev new -> fetches_members ev = true ->
      exists groupName,
        groups_getGroupNameByGroupSlug env (params_slug (req s))
          = Ok (Some groupName) /\
        (groups_isHidden env groupName = Ok false \/
         groups_isMember env (uid (req s)) groupName = Ok true \/
         user_isAdminOrGlobalMod env (uid (req s)) = Ok true).
Proof.
  open_state s. run.
  destruct (requested_page _) as [page|]; cbn.
  2:{ exists []. rewrite app_nil_r. split; [reflexivity|]. intros ev []. }
  destruct (groups_getGroupNameByGroupSlug env slug) as [[g|]|e] eqn:Hname;
    cbn.
  2,3: eexists; (split; [reflexivity|]); intros ev [<- | []]; discriminate.
  destruct (String.eqb g ""); cbn.
  { eexists. split; [reflexivity|]. intros ev [<- | []]. discriminate. }
  destruct (groups_getGroupData env g) as [gd|] eqn:Hdata,
           (user_isAdminOrGlobalMod env principal) as [role|] eqn:Hrole,
           (groups_isMember env principal g) as [member|] eqn:Hmember,
           (groups_isHidden env g) as [hidden|] eqn:Hhidden; cbn;
    try (eexists; (split; [rewrite <- ?app_assoc; reflexivity|]);
         intros ev Hin; cbn in Hin;
         repeat (destruct Hin as [<- | Hin]; [discriminate|]);
         now destruct Hin).
  destruct (hidden && negb member && negb role) eqn:Hgate; cbn.
  { eexists. split; [rewrite <- ?app_assoc; reflexivity|].
    intros ev Hin. cbn in Hin.
    repeat (destruct Hin as [<- | Hin]; [discriminate|]). destruct Hin. }
  destruct (user_getUsersFromSet env _ _ _ _); cbn;
    (eexists; split; [rewrite <- ?app_assoc; reflexivity|]);
    intros ev Hin _; exists g; (split; [reflexivity|]);
    destruct hidden, member, role; cbn in Hgate; try discriminate; auto.
Qed.

(** X18. The members handler takes the slug as it is given: when the page
    parameter converts to a number, its first call resolves the slug of
    the request without lower-casing it, and when the conversion throws it
    fails with the TypeError before any call; it never redirects and never
    changes the request; it sends nothing (and has failed), calls next()
    once, or sends the single page groups/members. *)
Theorem members_takes_slug_as_given `{X : Externals} (env : Collab) (s : St) :
  (forall page, requested_page (req s) = Returns page ->
   exists rest,
     log (fst (groupsController_members env s)) =
       log s ++ Ev (GetGroupNameByGroupSlug (params_slug (req s))) :: rest) /\
  (requested_page (req s) = Throws ->
   groupsController_members env s = (s, Error type_error)) /\
  req (fst (groupsController_members env s)) = req s /\
  ((out (fst (groupsController_members env s)) = out s /\
    exists e, snd (groupsController_members env s) = Error e) \/
   (out (fst (groupsController_members env s)) = out s ++ [Next] /\
    snd (groupsController_members env s) = Ok tt) \/
   (exists view,
      out (fst (groupsController_members env s)) =
        out s ++ [Render "groups/members" view] /\
      snd (groupsController_members env s) = Ok tt)).
Proof.
  open_state s. repeat split.
  - intros page Hpage. run. rewrite Hpage.
    branch; eexists; rewrite <- ?app_assoc; reflexivity.
  - intros Hpage. run. rewrite Hpage. reflexivity.
  - run. branch; reflexivity.
  - run.
    branch;
      first [ left; split; [reflexivity | eexists; reflexivity]
            | right; left; split; reflexivity
            | right; right; eexists; split; reflexivity ].
Qed.

Lemma members_takes_slug_as_given_witness :
  (let s := demo_state false (demo_request 3 ∅ "Staff") in
   exists rest,
     log (fst (groupsController_members demo_env s)) =
       Ev (GetGroupNameByGroupSlug "Staff") :: rest) /\
  (let s := demo_state false
              (demo_request 3 {[ "page" := QObj true ]} "staff") in
   groupsController_members demo_env s = (s, Error "TypeError")).
Proof.
  split; cbv zeta.
  - destruct (members_takes_slug_as_given demo_env
                (demo_state false (demo_request 3 ∅ "Staff")))
      as (Hfirst & _).
    apply (Hfirst 1). reflexivity.
  - destruct (members_takes_slug_as_given demo_env
                (demo_state false
                   (demo_request 3 {[ "page" := QObj true ]} "staff")))
      as (_ & Hthrown & _).
    apply Hthrown. reflexivity.
Defined.

(** X19. The two handlers do not ask for the same administrator role: for
    a hidden group, a principal who holds the admin:groups privilege but
    is neither a member nor answered as administrator-or-global-moderator
    by the user module is granted access, with the administrator flag, by
    the visibility check of the details handler, and gets next() from the
    members handler on every request whose page parameter converts to a
    number. *)
Theorem handlers_disagree_on_administrators `{X : Externals} (env : Collab)
    (s : St) (page : Z) (groupName : string) (globalMod : bool)
    (groupData : GroupData) :
  let principal := uid (req s) in
  requested_page (req s) = Returns page ->
  groups_getGroupNameByGroupSlug env (params_slug (req s))
    = Ok (Some groupName) ->
  groupName <> "" ->
  groups_exists env groupName = Ok true ->
  groups_isHidden env groupName = Ok true ->
  privileges_admin_can env "admin:groups" principal = Ok true ->
  user_isGlobalModerator env principal = Ok globalMod ->
  user_isAdminOrGlobalMod env principal = Ok false ->
  groups_isMember env principal groupName = Ok false ->
  groups_getGroupData env groupName = Ok groupData ->
  snd (validateGroupAccess env groupName s) =
    Ok {| hasAccess := true; isAdmin := Some true;
          isGlobalMod := Some globalMod |} /\
  snd (groupsController_members env s) = Ok tt /\
  out (fst (groupsController_members env s)) = out s ++ [Next].
Proof.
  intros principal0 Hpage Hname Hnonempty He Hh Ha Hg Hrole Hm Hdata.
  subst principal0. apply String.eqb_neq in Hnonempty.
  open_state s. run. rewrite Hpage. cbn. rewrite Hname. cbn.
  rewrite Hnonempty, He, Hh, Ha, Hg, Hdata, Hrole, Hm. cbn.
  repeat split; reflexivity.
Qed.

Lemma handlers_disagree_on_administrators_witness :
  let s := demo_state false (demo_request 6 ∅ "staff") in
  exists env,
    (exists access,
       snd (validateGroupAccess env "staff" s) = Ok access /\
       hasAccess access = true) /\
    out (fst (groupsController_members env s)) = [Next].
Proof.
  cbv zeta.
  pose (env := {|
    privileges_global_can := privileges_global_can demo_env;
    privileges_admin_can := fun _ u => Ok (u =? 6);
    user_isAdministrator := user_isAdministrator demo_env;
    user_isGlobalModerator := user_isGlobalModerator demo_env;
    user_isAdminOrGlobalMod := user_isAdminOrGlobalMod demo_env;
    user_getUsersFromSet := user_getUsersFromSet demo_env;
    groups_search := groups_search demo_env;
    groups_getGroupsBySort := groups_getGroupsBySort demo_env;
    groups_getGroupCountBySort := groups_getGroupCountBySort demo_env;
    groups_exists := groups_exists demo_env;
    groups_isHidden := groups_isHidden demo_env;
    groups_isMember := groups_isMember demo_env;
    groups_isInvited := groups_isInvited demo_env;
    groups_get := groups_get demo_env;
    groups_getLatestMemberPosts := groups_getLatestMemberPosts demo_env;
    groups_getGroupData := groups_getGroupData demo_env;
    groups_getGroupNameByGroupSlug := groups_getGroupNameByGroupSlug demo_env;
    first_rejection := first_rejection demo_env |}).
  exists env.
  destruct (handlers_disagree_on_administrators env
              (demo_state false (demo_request 6 ∅ "staff")) 1 "staff" false
              (("Staff", 3) : @GroupData demo))
    as (Haccess & _ & Hout); try reflexivity; [discriminate|].
  split; [|exact Hout].
  eexists. split; [exact Haccess | reflexivity].
Defined.

(** ** What the details handler sends and fetches *)

(** X14. Whatever the collaborators answer, the details handler answers
    in one of four ways and in no other: it sends nothing (and has
    failed), it redirects once, it calls next() once, or it sends the
    single page groups/details. *)
Theorem details_sends_one_answer `{X : Externals} (env : Collab) (s : St) :
  (out (fst (groupsController_details env s)) = out s /\
   exists e, snd (groupsController_details env s) = Error e) \/
  (exists location,
     out (fst (groupsController_details env s)) =
       out s ++ [Redirect location] /\
     snd (groupsController_details env s) = Ok tt) \/
  (out (fst (groupsController_details env s)) = out s ++ [Next] /\
   snd (groupsController_details env s) = Ok tt) \/
  (exists view,
     out (fst (groupsController_details env s)) =
       out s ++ [Render "groups/details" view] /\
     snd (groupsController_details env s) = Ok tt).
Proof.
  open_state s. run.
  branch;
    first [ left; split; [reflexivity | eexists; reflexivity]
          | right; left; eexists; split; reflexivity
          | right; right; left; split; reflexivity
          | right; right; right; eexists; split; reflexivity ].
Qed.

(** X20. The detail record and the posts of a group are fetched only
    after access has been granted: whatever the collaborators answer, if
    the details handler calls one of the two fetches, then the group it
    fetches is the one the lower-cased slug resolves to, this group exists,
    and it is not hidden or the principal holds the admin:groups
    privilege, is a global moderator, a member of it or invited to it. *)
Theorem details_fetch_is_authorized `{X : Externals} (env : Collab) (s : St) :
  exists new,
    log (fst (groupsController_details env s)) = log s ++ new /\
    forall ev groupName, In ev new -> fetched_group ev = Some groupName ->
      groups_getGroupNameByGroupSlug env (toLowerCase (params_slug (req s)))
        = Ok (Some groupName) /\
      groups_exists env groupName = Ok true /\
      (groups_isHidden env groupName = Ok false \/
       privileges_admin_can env "admin:groups" (uid (req s)) = Ok true \/
       user_isGlobalModerator env (uid (req s)) = Ok true \/
       groups_isMember env (uid (req s)) groupName = Ok true \/
       groups_isInvited env (uid (req s)) groupName = Ok true).
Proof.
  open_state s. run.
  destruct (String.eqb_spec slug (toLowerCase slug)) as [Heq | Hne]; cbn;
    [rewrite <- Heq | destruct api; cbn];
    branch_eq;
    first [ exists []; split; [symmetry; apply app_nil_r|]
          | eexists; split; [rewrite <- ?app_assoc; reflexivity|] ];
    intros ev fetched Hin Hfetch; cbn in Hin;
    repeat (destruct Hin as [<- | Hin]; [try discriminate Hfetch|]);
    try (now destruct Hin);
    cbn in Hfetch; injection Hfetch as <-;
    repeat match goal with
           | b : bool |- _ => destruct b
           end;
    cbn in *; try discriminate;
    (split; [first [reflexivity | assumption]|]);
    (split; [first [reflexivity | assumption]|]); eauto 6.
Qed.
